(** * httplib: the line-by-line request parser and the response writer

  A shallow embedding of [main.go]: the [Request] struct, the method
  [Request.parse], the read loop and router of [handleConnection_v5], and
  the response buffer written by [handleConnection_v4] and
  [handleConnection_v5], together with the pieces of Go's [strings],
  [strconv] and [bufio] packages that this code calls.

  Go strings and byte slices are byte sequences; both are modelled by
  [string] (a list of 8-bit [ascii] characters).  The map [Headers] is a
  [gmap string string]. *)

From Stdlib Require Import String Ascii List ZArith Lia Bool DecimalString.
From stdpp Require Import base option list strings gmap fin_maps.

Local Open Scope string_scope.
Local Open Scope nat_scope.

#[local] Arguments String.append !s1 s2 : simpl nomatch.
#[local] Arguments Ascii.eqb : simpl never.

(** ** Go's [strings] package *)

Module Strings.

(** [s[:n]] *)
Fixpoint sliceTo (n : nat) (s : string) : string :=
  match n, s with
  | S n', String c s' => String c (sliceTo n' s')
  | _, _ => EmptyString
  end.

(** [s[n:]] *)
Fixpoint sliceFrom (n : nat) (s : string) : string :=
  match n, s with
  | S n', String _ s' => sliceFrom n' s'
  | _, _ => s
  end.

(** [strings.HasPrefix(s, prefix)] *)
Fixpoint HasPrefix (s pre : string) : bool :=
  match pre, s with
  | EmptyString, _ => true
  | String a pre', String b s' => if Ascii.eqb a b then HasPrefix s' pre' else false
  | String _ _, EmptyString => false
  end.

(** [strings.Index(s, substr)]: the byte offset of the first instance of
    [substr] in [s]; Go's [-1] is [None]. *)
Fixpoint Index (s substr : string) : option nat :=
  if HasPrefix s substr then Some 0
  else match s with
       | EmptyString => None
       | String _ s' => option_map S (Index s' substr)
       end.

(** [strings.Count(s, substr)] for a non-empty [substr]: the number of
    non-overlapping instances, found left to right.  Each instance uses
    up at least one byte, so [length s] rounds of the loop are enough. *)
Fixpoint countLoop (fuel : nat) (s substr : string) : nat :=
  match fuel with
  | 0 => 0
  | S fuel' =>
      match Index s substr with
      | None => 0
      | Some i => S (countLoop fuel' (sliceFrom (i + String.length substr) s) substr)
      end
  end.

Definition Count (s substr : string) : nat :=
  countLoop (String.length s) s substr.

(** The loop of [genSplit]: at most [n] cuts, the rest of [s] is the last
    element. *)
Fixpoint splitLoop (n : nat) (s sep : string) : list string :=
  match n with
  | 0 => [s]
  | S n' =>
      match Index s sep with
      | None => [s]
      | Some m => sliceTo m s :: splitLoop n' (sliceFrom (m + String.length sep) s) sep
      end
  end.

(** [genSplit(s, sep, 0, n)] for a non-empty [sep] (with an empty [sep]
    Go explodes [s] into UTF-8 sequences; [parse] only passes the
    literals [" "] and [": "]). *)
Definition genSplit (s sep : string) (n : Z) : list string :=
  if (n =? 0)%Z then []
  else
    let n := if (n <? 0)%Z then (Z.of_nat (Count s sep) + 1)%Z else n in
    let n := if (n >? Z.of_nat (String.length s) + 1)%Z
             then (Z.of_nat (String.length s) + 1)%Z else n in
    splitLoop (Z.to_nat (n - 1)) s sep.

(** [strings.Split(s, sep)] *)
Definition Split (s sep : string) : list string := genSplit s sep (-1).

(** [strings.SplitN(s, sep, n)] *)
Definition SplitN (s sep : string) (n : Z) : list string := genSplit s sep n.

(** The byte test and byte map of the ASCII path of [strings.ToLower]. *)
Definition isASCIIByte (c : ascii) : bool := (nat_of_ascii c <? 128)%nat.

Definition isUpperByte (c : ascii) : bool :=
  ((65 <=? nat_of_ascii c) && (nat_of_ascii c <=? 90))%nat.

Definition lowerByte (c : ascii) : ascii :=
  if isUpperByte c then ascii_of_nat (nat_of_ascii c + 32) else c.

Fixpoint isASCII (s : string) : bool :=
  match s with
  | EmptyString => true
  | String c s' => isASCIIByte c && isASCII s'
  end.

Fixpoint lowerASCII (s : string) : string :=
  match s with
  | EmptyString => EmptyString
  | String c s' => String (lowerByte c) (lowerASCII s')
  end.

(** What [strings.ToLower] does with a string that has a byte of 128 or
    more, [Map(unicode.ToLower, s)]: decoding UTF-8 and mapping each rune
    through the Unicode case tables.  The tables are not modelled; the
    development holds for every such function. *)
Class UnicodeCase := mapUnicodeToLower : string -> string.

(** [strings.ToLower(s)] *)
Definition ToLower `{UnicodeCase} (s : string) : string :=
  if isASCII s then lowerASCII s else mapUnicodeToLower s.

End Strings.

(** ** Go's [strconv.Itoa] on a length *)

Module Strconv.

Definition Itoa (n : nat) : string := NilZero.string_of_uint (Nat.to_uint n).

End Strconv.

Import Strings.

(** ** The request *)

(** The struct [Request].  [Headers] is a map that has been made, as in
    [handleConnection_v5] ([req.Headers = make(map[string]string)]), the
    only place where the program creates a request; a nil map, on which the
    assignment in [parse] would panic, is not a value of this type.  A nil
    [Body] is the empty byte sequence. *)
Record Request := mkRequest {
  Protocol : string;
  Method : string;
  Path : string;
  Headers : gmap string string;
  wroteProtocol : bool;
  wroteHeaders : bool;
  Body : string;
  done : bool
}.

(** [new(Request)] with [Headers = make(map[string]string)], as
  [handleConnection_v5] creates it. *)
Definition newRequest : Request :=
  {| Protocol := ""; Method := ""; Path := ""; Headers := ∅;
     wroteProtocol := false; wroteHeaders := false; Body := ""; done := false |}.

(** The error values of [parse], by their [fmt.Errorf] message. *)
Definition error := string.

Definition errProtocolLine : error := "protocol line is not valid".
Definition errInvalidHeader : error := "invalid header".

(** [splits[i]] for an index the code has checked to be in range. *)
Definition index (splits : list string) (i : nat) : string := nth i splits "".

Section Parse.

Context `{UnicodeCase}.

(** [func (r *Request) parse(line string) error]: the request after the
    call and the returned error ([None] is [nil]). *)
Definition parse (line : string) (r : Request) : Request * option error :=
  if String.length line =? 0 then
    ({| Protocol := Protocol r; Method := Method r; Path := Path r;
        Headers := Headers r; wroteProtocol := wroteProtocol r;
        wroteHeaders := true; Body := Body r; done := true |}, None)
  else if negb (wroteProtocol r) then
    let splits := Split line " " in
    if negb (length splits =? 3) then (r, Some errProtocolLine)
    else
      ({| Protocol := index splits 2; Method := index splits 0;
          Path := index splits 1; Headers := Headers r;
          wroteProtocol := true; wroteHeaders := wroteHeaders r;
          Body := Body r; done := done r |}, None)
  else if negb (wroteHeaders r) then
    let splits := SplitN line ": " 2 in
    if negb (length splits =? 2) then (r, Some errInvalidHeader)
    else
      ({| Protocol := Protocol r; Method := Method r; Path := Path r;
          Headers := <[ToLower (index splits 0) := ToLower (index splits 1)]> (Headers r);
          wroteProtocol := wroteProtocol r; wroteHeaders := wroteHeaders r;
          Body := Body r; done := done r |}, None)
  else (r, None).

End Parse.


(** ** Go's [bufio.Scanner] with the default split function [ScanLines] *)

Module Bufio.

Definition CR : ascii := ascii_of_nat 13.
Definition LF : ascii := ascii_of_nat 10.

(** [bytes.IndexByte(data, c)] *)
Fixpoint IndexByte (data : string) (c : ascii) : option nat :=
  match data with
  | EmptyString => None
  | String b data' => if Ascii.eqb b c then Some 0 else option_map S (IndexByte data' c)
  end.

(** [data[len(data)-1]], for a non-empty [data] *)
Fixpoint lastByte (data : string) : option ascii :=
  match data with
  | EmptyString => None
  | String b EmptyString => Some b
  | String _ data' => lastByte data'
  end.

(** [dropCR(data)]: drops a terminal carriage return. *)
Definition dropCR (data : string) : string :=
  match lastByte data with
  | Some b => if Ascii.eqb b CR then sliceTo (String.length data - 1) data else data
  | None => data
  end.

(** [ScanLines(data, atEOF)]: how far to advance and the token, if any. *)
Definition ScanLines (data : string) (atEOF : bool) : nat * option string :=
  if atEOF && (String.length data =? 0) then (0, None)
  else match IndexByte data LF with
       | Some i => (i + 1, Some (dropCR (sliceTo i data)))
       | None => if atEOF then (String.length data, Some (dropCR data)) else (0, None)
       end.

(** [scanner.Scan()] followed by [scanner.Text()] on a stream whose
    unread bytes are [data], all of them up to the end of the stream: the
    next line and the bytes left unread, or [None] when [Scan] returns
    false.  (A token found before the end of the stream is the one
    [ScanLines] finds in the whole of [data].  This is the scanner on lines
    that fit its buffer; the limit of 64 KiB on a line is in [ScanBounded]
    below.) *)
Definition Scan (data : string) : option (string * string) :=
  match ScanLines data true with
  | (advance, Some token) => Some (token, sliceFrom advance data)
  | (_, None) => None
  end.

(** All the lines [Scan] yields from [data]; each round uses up at least
    one byte. *)
Fixpoint scanAll (fuel : nat) (data : string) : list string :=
  match fuel with
  | 0 => []
  | S fuel' =>
      match Scan data with
      | None => []
      | Some (line, rest) => line :: scanAll fuel' rest
      end
  end.

Definition Lines (data : string) : list string := scanAll (String.length data) data.

End Bufio.

Import Bufio.

(** ** The connection handlers *)

Definition CRLF : string := String CR (String LF EmptyString).

(** [bytes.Buffer]: [WriteString] and [Write] append to the contents. *)
Definition WriteString (buffer s : string) : string := buffer +:+ s.
Definition Write (buffer p : string) : string := buffer +:+ p.

(** The buffer [handleConnection_v4] and the success path of
    [handleConnection_v5] build around [dataToWrite]. *)
Definition writeOK (dataToWrite : string) : string :=
  let buffer := "" in
  let buffer := WriteString buffer "HTTP/1.1 200 OK" in
  let buffer := WriteString buffer CRLF in
  let buffer := WriteString buffer "Content-Length: " in
  let buffer := WriteString buffer (Strconv.Itoa (String.length dataToWrite)) in
  let buffer := WriteString buffer CRLF in
  let buffer := WriteString buffer CRLF in
  Write buffer dataToWrite.

(** The buffer of the not-found path of [handleConnection_v5]. *)
Definition writeNotFound : string :=
  let buffer := "" in
  let buffer := WriteString buffer "HTTP/1.1 404 Not Found" in
  let buffer := WriteString buffer CRLF in
  let buffer := WriteString buffer "Content-Length: 0" in
  let buffer := WriteString buffer CRLF in
  WriteString buffer CRLF.

(** What [handleConnection_v4] writes on the connection. *)
Definition handleConnection_v4 : string := writeOK "Gopher!!".

(** The three updates [parse] makes to a request. *)
Definition terminated (r : Request) : Request :=
  {| Protocol := Protocol r; Method := Method r; Path := Path r;
     Headers := Headers r; wroteProtocol := wroteProtocol r;
     wroteHeaders := true; Body := Body r; done := true |}.

Definition withStartLine (method path protocol : string) (r : Request) : Request :=
  {| Protocol := protocol; Method := method; Path := path; Headers := Headers r;
     wroteProtocol := true; wroteHeaders := wroteHeaders r;
     Body := Body r; done := done r |}.

Definition withHeader (name value : string) (r : Request) : Request :=
  {| Protocol := Protocol r; Method := Method r; Path := Path r;
     Headers := <[name := value]> (Headers r);
     wroteProtocol := wroteProtocol r; wroteHeaders := wroteHeaders r;
     Body := Body r; done := done r |}.

(** How the read loop of [handleConnection_v5] is left. *)
Inductive loopExit :=
| ParseError (err : error)   (* [parse] failed: the connection is closed *)
| Break                      (* [req.done] after a line *)
| EndOfInput.                (* [scanner.Scan()] returned false *)

Section Handler.

Context `{UnicodeCase}.

(** A sequence of [parse] calls on one request, whatever they return. *)
Definition parseAll (lines : list string) (r : Request) : Request :=
  fold_left (fun r line => fst (parse line r)) lines r.

(** The [for scanner.Scan()] loop of [handleConnection_v5] over the lines
    the scanner yields. *)
Fixpoint readRequest (lines : list string) (req : Request) : Request * loopExit :=
  match lines with
  | [] => (req, EndOfInput)
  | line :: lines' =>
      match parse line req with
      | (req', Some err) => (req', ParseError err)
      | (req', None) => if done req' then (req', Break) else readRequest lines' req'
      end
  end.

(** The same loop over the bytes of the connection, with the bytes it
    leaves unread. *)
Fixpoint readStream (fuel : nat) (data : string) (req : Request)
  : Request * loopExit * string :=
  match fuel with
  | 0 => (req, EndOfInput, data)
  | S fuel' =>
      match Scan data with
      | None => (req, EndOfInput, data)
      | Some (line, rest) =>
          match parse line req with
          | (req', Some err) => (req', ParseError err, rest)
          | (req', None) =>
              if done req' then (req', Break, rest) else readStream fuel' rest req'
          end
      end
  end.

(** The router of [handleConnection_v5]: the bytes written for [req]. *)
Definition respond (req : Request) : string :=
  if negb (String.eqb (Path req) "/") || negb (String.eqb (Method req) "GET")
  then writeNotFound
  else writeOK "Gopher!!".

(** [handleConnection_v5] on the lines of a connection: the bytes handed to
    [conn.Write], or [None] when the connection is closed with nothing
    written. *)
Definition handleConnection_v5 (lines : list string) : option string :=
  match readRequest lines newRequest with
  | (_, ParseError _) => None
  | (req, _) => Some (respond req)
  end.

(** How often [wroteHeaders] goes from false to true along a sequence of
    [parse] calls. *)
Fixpoint headersTerminations (lines : list string) (r : Request) : nat :=
  match lines with
  | [] => 0
  | line :: lines' =>
      let r' := fst (parse line r) in
      (if negb (wroteHeaders r) && wroteHeaders r' then 1 else 0)
      + headersTerminations lines' r'
  end.

(** The cases of one call [r.parse(line)], as a step from [r] to the
    request after the call and the error returned. *)
Inductive parseStep (r : Request) : string -> Request -> option error -> Prop :=
| step_blank :
    parseStep r "" (terminated r) None
| step_start_error line :
    line <> "" -> wroteProtocol r = false -> length (Split line " ") <> 3 ->
    parseStep r line r (Some errProtocolLine)
| step_start line method path protocol :
    line <> "" -> wroteProtocol r = false ->
    Split line " " = [method; path; protocol] ->
    parseStep r line (withStartLine method path protocol r) None
| step_header_error line :
    line <> "" -> wroteProtocol r = true -> wroteHeaders r = false ->
    Index line ": " = None ->
    parseStep r line r (Some errInvalidHeader)
| step_header line i :
    line <> "" -> wroteProtocol r = true -> wroteHeaders r = false ->
    Index line ": " = Some i ->
    parseStep r line
      (withHeader (ToLower (sliceTo i line)) (ToLower (sliceFrom (i + 2) line)) r) None
| step_skip line :
    line <> "" -> wroteProtocol r = true -> wroteHeaders r = true ->
    parseStep r line r None.

End Handler.

(** ** The body phase of the specification *)

(** [strconv.Atoi] on an unsigned decimal numeral; the empty string and
    any other byte than a digit are errors ([None]). *)
Definition Atoi (s : string) : option nat :=
  match s with
  | EmptyString => None
  | _ => option_map Nat.of_uint (NilEmpty.uint_of_string s)
  end.

(** The length announced by the [content-length] entry of the headers. *)
Definition contentLength (r : Request) : option nat :=
  match Headers r !! "content-length" with
  | Some v => Atoi v
  | None => None
  end.

(** Modelled from the spec: the body-reading phase, which [main.go] does
    not have ([parse] ends with "skip the body for now").  After the blank
    line, when [content-length] is present and greater than 0, exactly that
    many raw bytes of the unread input are the body; otherwise there is
    none. *)
Definition readBody (r : Request) (rest : string) : option string :=
  match contentLength r with
  | Some n =>
      if (0 <? n) && (n <=? String.length rest) then Some (sliceTo n rest) else None
  | None => None
  end.

(** What the specification asks of a completed request: a body of the
    announced length when [content-length] is greater than 0, none
    otherwise. *)
Definition bodyFollowsContentLength (r : Request) : Prop :=
  match contentLength r with
  | Some n => if 0 <? n then Body r <> "" /\ String.length (Body r) = n else Body r = ""
  | None => Body r = ""
  end.

(** ** Vocabulary of the statements *)

(** [strings.Contains(s, substr)] *)
Definition Contains (s substr : string) : bool :=
  match Index s substr with Some _ => true | None => false end.

(** Whether [s] has a byte in [A]..[Z]. *)
Fixpoint hasUpper (s : string) : bool :=
  match s with
  | EmptyString => false
  | String c s' => isUpperByte c || hasUpper s'
  end.

(** The number of bytes of [s] equal to [c]. *)
Fixpoint countByte (c : ascii) (s : string) : nat :=
  match s with
  | EmptyString => 0
  | String b s' => (if Ascii.eqb b c then 1 else 0) + countByte c s'
  end.

(** A request on the wire, line by line: the start line, one line per
    header field, the blank line. *)
Definition startLine (method path protocol : string) : string :=
  method +:+ " " +:+ path +:+ " " +:+ protocol.

Definition headerLine (h : string * string) : string := h.1 +:+ ": " +:+ h.2.

Definition requestLines (method path protocol : string) (hs : list (string * string))
  : list string :=
  startLine method path protocol :: map headerLine hs ++ [""].

(** The header fields stored one after the other, a later one replacing an
    earlier one of the same lower-cased name. *)
Definition storeHeaders `{UnicodeCase} (hs : list (string * string))
  (m : gmap string string) : gmap string string :=
  fold_left (fun m h => <[ToLower h.1 := ToLower h.2]> m) hs m.

(** The value stored under [k] by the last header field whose lower-cased
    name is [k], if there is one. *)
Definition lastValue `{UnicodeCase} (k : string) (hs : list (string * string))
  : option string :=
  fold_left (fun acc h => if decide (ToLower h.1 = k) then Some (ToLower h.2) else acc)
    hs None.


(** The bytes of a list of lines on the wire, each line ended by CRLF. *)
Definition wire (lines : list string) : string :=
  fold_right (fun line bytes => line +:+ CRLF +:+ bytes) "" lines.

(** ** The scanner with the limit of its buffer *)

(** [bufio.MaxScanTokenSize]: the buffer of a scanner grows to 64 KiB and
    no further. *)
Definition maxScanTokenSize : Z := 64 * 1024.

(** Whether [n] bytes are fewer than the buffer holds. *)
Definition belowLimit (n : nat) : bool := (Z.of_nat n <? maxScanTokenSize)%Z.

(** [scanner.Scan()] with that limit.  A line is found when the line feed
    that ends it is among the first [maxScanTokenSize] unread bytes.  A last
    line without line feed is found when it is shorter than the buffer: a
    connection reports [io.EOF] by a read of no bytes, and a buffer that is
    full before that read has already made [Scan] fail.  In the other cases
    [Scan] returns false with [ErrTooLong], and the loop of the handler ends
    as it does at the end of the input. *)
Definition ScanBounded (data : string) : option (string * string) :=
  match IndexByte data LF with
  | Some i => if belowLimit i then Scan data else None
  | None => if belowLimit (String.length data) then Scan data else None
  end.

(** The [for scanner.Scan()] loop of [handleConnection_v5] over the bytes
    of the connection, the scanner having its limit, with the bytes it
    leaves unread. *)
Fixpoint readStreamBounded `{UnicodeCase} (fuel : nat) (data : string) (req : Request)
  : Request * loopExit * string :=
  match fuel with
  | 0 => (req, EndOfInput, data)
  | S fuel' =>
      match ScanBounded data with
      | None => (req, EndOfInput, data)
      | Some (line, rest) =>
          match parse line req with
          | (req', Some err) => (req', ParseError err, rest)
          | (req', None) =>
              if done req' then (req', Break, rest)
              else readStreamBounded fuel' rest req'
          end
      end
  end.

(** Whether every byte of [s] is a decimal digit. *)
Definition isDigitByte (c : ascii) : bool :=
  ((48 <=? nat_of_ascii c) && (nat_of_ascii c <=? 57))%nat.

Fixpoint allDigits (s : string) : bool :=
  match s with
  | EmptyString => true
  | String c s' => isDigitByte c && allDigits s'
  end.

(** Whether no byte of [s] is a letter, so that lower-casing cannot change
    a byte into one of [s] or a byte of [s] into another. *)
Definition isCaselessByte (c : ascii) : bool :=
  negb (isUpperByte c)
  && negb ((97 <=? nat_of_ascii c) && (nat_of_ascii c <=? 122))%nat.

Fixpoint caseless (s : string) : bool :=
  match s with
  | EmptyString => true
  | String c s' => isCaselessByte c && caseless s'
  end.

(** ** The chunked read loop of [handleConnection_v2], [_v3] and [_v4] *)

(** The error of a [conn.Read]: [io.EOF] or any other. *)
Inductive readError := ErrEOF | ErrOther.

(** What one call [conn.Read(dataSlice)] returns: the bytes the connection
    delivers into the slice and the error. *)
Record readResult := mkRead {
  delivered : string;
  readErr : option readError
}.

(** [1 << 6], the length of [dataSlice]. *)
Definition chunkSize : nat := 64.

(** [n] zero bytes, as [make([]byte, n)] gives them. *)
Fixpoint zeros (n : nat) : string :=
  match n with
  | 0 => EmptyString
  | S n' => String (ascii_of_nat 0) (zeros n')
  end.

(** The [n] that [Read] returns: it never reads more than the slice
    holds. *)
Definition bytesRead (rd : readResult) : nat :=
  Nat.min (String.length (delivered rd)) chunkSize.

(** [dataSlice] after the call: the bytes read, then the zero bytes the
    slice was made with. *)
Definition dataSlice (rd : readResult) : string :=
  sliceTo chunkSize (delivered rd +:+ zeros chunkSize).

(** A [Read] on a connection with nothing more to deliver: no byte and
    [io.EOF]. *)
Definition endOfStream : readResult := {| delivered := ""; readErr := Some ErrEOF |}.

(** One round of the loop [for { ... }] of [handleConnection_v2], [_v3] and
    [_v4] for the read result [rd]: [None] when the handler returns on an
    error that is not [io.EOF]; otherwise [completeData] after the append
    and whether the loop breaks. *)
Definition readRound (rd : readResult) (completeData : string) : option (string * bool) :=
  match readErr rd with
  | Some ErrOther => None
  | _ =>
      let completeData := completeData +:+ dataSlice rd in
      Some (completeData, bytesRead rd <? chunkSize)
  end.

(** The loop over the results of the successive reads; when they are used
    up the connection has nothing more to deliver. *)
Fixpoint readChunks (reads : list readResult) (completeData : string) : option string :=
  match reads with
  | [] => option_map fst (readRound endOfStream completeData)
  | rd :: reads' =>
      match readRound rd completeData with
      | None => None
      | Some (completeData, true) => Some completeData
      | Some (completeData, false) => readChunks reads' completeData
      end
  end.

(** The bytes a list of reads delivers, one read after the other. *)
Definition allDelivered (reads : list readResult) : string :=
  fold_right (fun rd bytes => delivered rd +:+ bytes) "" reads.

(** [handleConnection_v2]: the data it logs, [None] when it returns on a
    failed read. *)
Definition handleConnection_v2 (reads : list readResult) : option string :=
  readChunks reads "".

(** [handleConnection_v3]: the bytes it writes on the connection, [None]
    when it returns on a failed read. *)
Definition handleConnection_v3 (reads : list readResult) : option string :=
  match readChunks reads "" with
  | None => None
  | Some _ => Some "Gopher!!"
  end.

(** [handleConnection_v4] with its read loop: the bytes it writes on the
    connection, [None] when it returns on a failed read. *)
Definition handleConnection_v4_conn (reads : list readResult) : option string :=
  match readChunks reads "" with
  | None => None
  | Some _ => Some (writeOK "Gopher!!")
  end.

(** * Facts about the string functions *)

Section StringFacts.

Lemma HasPrefix_nil s : HasPrefix s "" = true.
Proof. by destruct s. Qed.

Lemma HasPrefix_app p t : HasPrefix (p +:+ t) p = true.
Proof.
  induction p as [|a p IH]; simpl; [apply HasPrefix_nil|].
  by rewrite Ascii.eqb_refl.
Qed.

Lemma HasPrefix_inv s p : HasPrefix s p = true -> exists t, s = p +:+ t.
Proof.
  revert s. induction p as [|a p IH]; intros s Hp.
  - by exists s.
  - destruct s as [|b s]; simpl in Hp; [done|].
    destruct (Ascii.eqb_spec a b) as [->|]; [|done].
    destruct (IH _ Hp) as [t ->]. by exists t.
Qed.

(** [HasPrefix] only looks at the first [length p] bytes. *)
Lemma HasPrefix_app_l s t p :
  String.length p <= String.length s -> HasPrefix (s +:+ t) p = HasPrefix s p.
Proof.
  revert s. induction p as [|a p IH]; intros s Hlen; [by rewrite !HasPrefix_nil|].
  destruct s as [|b s]; simpl in *; [lia|].
  destruct (Ascii.eqb a b); [apply IH; lia|done].
Qed.

Lemma sliceTo_app a b : sliceTo (String.length a) (a +:+ b) = a.
Proof. induction a; simpl; [by destruct b|congruence]. Qed.

Lemma sliceFrom_app a b : sliceFrom (String.length a) (a +:+ b) = b.
Proof. induction a; simpl; [by destruct b|done]. Qed.

Lemma sliceFrom_app_plus a b n :
  sliceFrom (String.length a + n) (a +:+ b) = sliceFrom n b.
Proof. induction a; simpl; done. Qed.

Lemma slice_cat n s : sliceTo n s +:+ sliceFrom n s = s.
Proof.
  revert s. induction n as [|n IH]; intros [|c s]; simpl; try done.
  by rewrite IH.
Qed.

Lemma sliceTo_length n s : n <= String.length s -> String.length (sliceTo n s) = n.
Proof.
  revert s. induction n as [|n IH]; intros [|c s]; simpl; try done; try lia.
  intros Hn. rewrite IH; lia.
Qed.

Lemma sliceFrom_length n s : String.length (sliceFrom n s) = String.length s - n.
Proof. revert s. induction n as [|n IH]; intros [|c s]; simpl; try done. Qed.

Lemma append_length a b : String.length (a +:+ b) = String.length a + String.length b.
Proof. induction a; simpl; congruence. Qed.

Lemma append_assoc a b c : (a +:+ b) +:+ c = a +:+ (b +:+ c).
Proof. induction a; simpl; congruence. Qed.

Lemma append_nil_r a : a +:+ "" = a.
Proof. induction a; simpl; congruence. Qed.

Lemma length_zero_iff s : (String.length s =? 0) = true <-> s = "".
Proof. destruct s; simpl; split; done. Qed.

Lemma Index_eq s p :
  Index s p =
  if HasPrefix s p then Some 0
  else match s with
       | EmptyString => None
       | String _ s' => option_map S (Index s' p)
       end.
Proof. by destruct s. Qed.

(** [Index] finds an instance, no further than the end of [s], and no
    instance starts before it. *)
Lemma Index_Some s p m :
  Index s p = Some m ->
  m <= String.length s /\ HasPrefix (sliceFrom m s) p = true /\
  forall k, k < m -> HasPrefix (sliceFrom k s) p = false.
Proof.
  revert m. induction s as [|c s IH]; intros m; rewrite Index_eq.
  - destruct (HasPrefix "" p) eqn:Hp; [|done].
    intros [= <-]. split; [simpl; lia|]. split; [done|]. intros; lia.
  - destruct (HasPrefix (String c s) p) eqn:Hp.
    + intros [= <-]. split; [simpl; lia|]. split; [done|]. intros; lia.
    + destruct (Index s p) as [m'|] eqn:Hi; simpl; [|done].
      intros [= <-]. destruct (IH _ eq_refl) as (Hle & Hpre & Hmin).
      split; [lia|]. split; [done|].
      intros [|k] Hk; [done|]. apply (Hmin k). lia.
Qed.

Lemma Index_None s p : Index s p = None -> forall k, HasPrefix (sliceFrom k s) p = false.
Proof.
  induction s as [|c s IH]; rewrite Index_eq.
  - destruct (HasPrefix "" p) eqn:Hp; [done|]. intros _ [|k]; done.
  - destruct (HasPrefix (String c s) p) eqn:Hp; [done|].
    destruct (Index s p) eqn:Hi; simpl; [done|].
    intros _ [|k]; [done|]. by apply IH.
Qed.

(** An instance at offset [m] with none before it is the one [Index]
    returns. *)
Lemma Index_first s p m :
  m <= String.length s ->
  HasPrefix (sliceFrom m s) p = true ->
  (forall k, k < m -> HasPrefix (sliceFrom k s) p = false) ->
  Index s p = Some m.
Proof.
  intros Hle Hpre Hmin.
  destruct (Index s p) as [m'|] eqn:Hi.
  - destruct (Index_Some _ _ _ Hi) as (_ & Hpre' & Hmin').
    destruct (Nat.lt_trichotomy m m') as [Hlt|[->|Hlt]]; [|done|].
    + rewrite (Hmin' _ Hlt) in Hpre. done.
    + rewrite (Hmin _ Hlt) in Hpre'. done.
  - by rewrite (Index_None _ _ Hi m) in Hpre.
Qed.

(** [Contains] is the existence of an instance somewhere in [s]. *)
Lemma Contains_spec s p : Contains s p = true <-> exists a b, s = a +:+ p +:+ b.
Proof.
  unfold Contains. split.
  - destruct (Index s p) as [m|] eqn:Hi; [|done]. intros _.
    destruct (Index_Some _ _ _ Hi) as (_ & Hpre & _).
    destruct (HasPrefix_inv _ _ Hpre) as [t Ht].
    exists (sliceTo m s), t. by rewrite <- Ht, slice_cat.
  - intros (a & b & ->).
    destruct (Index (a +:+ p +:+ b) p) eqn:Hi; [done|].
    pose proof (Index_None _ _ Hi (String.length a)) as Hn.
    by rewrite sliceFrom_app, HasPrefix_app in Hn.
Qed.

Lemma sliceFrom_app_le k a t :
  k <= String.length a -> sliceFrom k (a +:+ t) = sliceFrom k a +:+ t.
Proof.
  revert a. induction k as [|k IH]; intros [|c a]; simpl; try done; try lia.
  intros Hk. apply IH. lia.
Qed.

(** The first instance of [p] in [a +:+ p +:+ b] is the one written there
    when [a] has none and none begins in [a] and ends in [p]. *)
Lemma Index_app a p b :
  Index a p = None ->
  (forall x, 0 < String.length x < String.length p ->
             HasPrefix (x +:+ p +:+ b) p = false) ->
  Index (a +:+ p +:+ b) p = Some (String.length a).
Proof.
  intros Hnone Hjoin. apply Index_first.
  - rewrite append_length. lia.
  - by rewrite sliceFrom_app, HasPrefix_app.
  - intros k Hk. rewrite sliceFrom_app_le by lia.
    pose proof (sliceFrom_length k a) as Hlen.
    destruct (Nat.le_gt_cases (String.length p) (String.length (sliceFrom k a))) as [Hle|Hgt].
    + rewrite HasPrefix_app_l by done. by apply Index_None.
    + apply Hjoin. lia.
Qed.

Lemma Index_app_byte a c b :
  Index a (String c "") = None ->
  Index (a +:+ String c b) (String c "") = Some (String.length a).
Proof.
  intros Hnone. apply (Index_app a (String c "") b Hnone).
  simpl. intros x Hx. lia.
Qed.

Lemma Index_app_colon a b :
  Index a ": " = None -> Index (a +:+ ": " +:+ b) ": " = Some (String.length a).
Proof.
  intros Hnone. apply (Index_app a ": " b Hnone).
  intros [|x [|y t]]; simpl; intros Hx; try lia.
  by destruct (Ascii.eqb ":" x).
Qed.

(** *** Lower-casing of ASCII strings *)

Lemma lowerByte_not_upper c : isUpperByte (lowerByte c) = false.
Proof.
  unfold lowerByte. destruct (isUpperByte c) eqn:Hc; [|done].
  unfold isUpperByte in *. apply andb_true_iff in Hc as [Hlo%Nat.leb_le Hhi%Nat.leb_le].
  rewrite nat_ascii_embedding by lia.
  apply andb_false_iff. right. apply Nat.leb_gt. lia.
Qed.

Lemma lowerByte_ASCII c : isASCIIByte c = true -> isASCIIByte (lowerByte c) = true.
Proof.
  unfold lowerByte. destruct (isUpperByte c) eqn:Hc; [|done]. intros _.
  unfold isUpperByte, isASCIIByte in *.
  apply andb_true_iff in Hc as [Hlo%Nat.leb_le Hhi%Nat.leb_le].
  rewrite nat_ascii_embedding by lia. apply Nat.ltb_lt. lia.
Qed.

Lemma lowerASCII_no_upper s : hasUpper (lowerASCII s) = false.
Proof. induction s as [|c s IH]; simpl; [done|]. by rewrite lowerByte_not_upper. Qed.

Lemma lowerASCII_isASCII s : isASCII s = true -> isASCII (lowerASCII s) = true.
Proof.
  induction s as [|c s IH]; simpl; [done|].
  intros [Hc Hs]%andb_true_iff. by rewrite lowerByte_ASCII, IH.
Qed.

Lemma lowerASCII_fixed s : hasUpper s = false -> lowerASCII s = s.
Proof.
  induction s as [|c s IH]; simpl; [done|].
  intros [Hc Hs]%orb_false_iff. unfold lowerByte. by rewrite Hc, IH.
Qed.

Lemma lowerASCII_length s : String.length (lowerASCII s) = String.length s.
Proof. induction s; simpl; congruence. Qed.

(** *** [Count] and the number of fields *)

Lemma countLoop_le fuel s sep : countLoop fuel s sep <= fuel.
Proof.
  revert s. induction fuel as [|fuel IH]; intros s; simpl; [done|].
  destruct (Index s sep); [|lia]. specialize (IH (sliceFrom (n + String.length sep) s)). lia.
Qed.

Lemma countLoop_fixed fuel s sep :
  countLoop (countLoop fuel s sep) s sep = countLoop fuel s sep.
Proof.
  revert s. induction fuel as [|fuel IH]; intros s; simpl; [done|].
  destruct (Index s sep) as [i|] eqn:Hi; simpl; [|done].
  by rewrite Hi, IH.
Qed.

Lemma splitLoop_length n s sep : length (splitLoop n s sep) = S (countLoop n s sep).
Proof.
  revert s. induction n as [|n IH]; intros s; simpl; [done|].
  destruct (Index s sep); simpl; [|done]. by rewrite IH.
Qed.

Lemma Count_le s sep : Count s sep <= String.length s.
Proof. apply countLoop_le. Qed.

(** [Split] makes one cut for each instance [Count] counts. *)
Lemma Split_eq s sep : Split s sep = splitLoop (Count s sep) s sep.
Proof.
  unfold Split, genSplit. pose proof (Count_le s sep) as Hle.
  replace (-1 =? 0)%Z with false by done.
  replace (-1 <? 0)%Z with true by done.
  destruct (Z.gtb_spec (Z.of_nat (Count s sep) + 1) (Z.of_nat (String.length s) + 1));
    [lia|].
  f_equal. lia.
Qed.

Lemma Split_length s sep : length (Split s sep) = S (Count s sep).
Proof. rewrite Split_eq, splitLoop_length. unfold Count. by rewrite countLoop_fixed. Qed.

(** [SplitN] with [n = 2] on a non-empty string makes at most one cut. *)
Lemma SplitN_2 s sep : s <> "" -> SplitN s sep 2 = splitLoop 1 s sep.
Proof.
  intros Hs. unfold SplitN, genSplit.
  replace (2 =? 0)%Z with false by done.
  replace (2 <? 0)%Z with false by done.
  destruct s as [|c s]; [done|]. simpl String.length.
  destruct (Z.gtb_spec 2 (Z.of_nat (S (String.length s)) + 1)); [lia|done].
Qed.

(** For a one-byte separator [Count] is the number of such bytes. *)
Lemma Index_byte_None c s : Index s (String c "") = None -> countByte c s = 0.
Proof.
  induction s as [|b s IH]; [done|]. rewrite Index_eq. simpl.
  rewrite HasPrefix_nil, (Ascii.eqb_sym b c).
  destruct (Ascii.eqb c b); [done|].
  destruct (Index s (String c "")); simpl; [done|]. intros _. by apply IH.
Qed.

Lemma Index_byte_Some c s i :
  Index s (String c "") = Some i -> countByte c s = S (countByte c (sliceFrom (i + 1) s)).
Proof.
  revert i. induction s as [|b s IH]; intros i; rewrite Index_eq; simpl; [done|].
  rewrite HasPrefix_nil, (Ascii.eqb_sym b c).
  destruct (Ascii.eqb c b).
  - by intros [= <-].
  - destruct (Index s (String c "")) as [j|]; simpl; [|done].
    intros [= <-]. simpl. by apply IH.
Qed.

Lemma countLoop_byte fuel c s :
  String.length s <= fuel -> countLoop fuel s (String c "") = countByte c s.
Proof.
  revert s. induction fuel as [|fuel IH]; intros s Hlen.
  - destruct s; [done|simpl in Hlen; lia].
  - simpl. destruct (Index s (String c "")) as [i|] eqn:Hi.
    + rewrite (Index_byte_Some _ _ _ Hi). f_equal. apply IH.
      destruct (Index_Some _ _ _ Hi) as (Hle & Hpre & _).
      rewrite sliceFrom_length.
      destruct s; [done|]. simpl in *. lia.
    + by rewrite (Index_byte_None _ _ Hi).
Qed.

Lemma Count_byte c s : Count s (String c "") = countByte c s.
Proof. by apply countLoop_byte. Qed.

Lemma countByte_app c a b : countByte c (a +:+ b) = countByte c a + countByte c b.
Proof. induction a as [|x a IH]; simpl; [done|]. rewrite IH. lia. Qed.

(** The number of fields [Split] makes of a line is one more than its
    number of spaces. *)
Lemma Split_space_length s : length (Split s " ") = S (countByte " " s).
Proof. by rewrite Split_length, Count_byte. Qed.

End StringFacts.

(** * The cases of [parse] *)

Section ParseFacts.

Context `{UnicodeCase}.

(** On a string of ASCII bytes [ToLower] maps [A]..[Z] to [a]..[z] and
    leaves the other bytes; lower-casing again changes nothing. *)
Lemma ToLower_ASCII s :
  isASCII s = true ->
  ToLower s = lowerASCII s /\ hasUpper (ToLower s) = false /\
  String.length (ToLower s) = String.length s /\ ToLower (ToLower s) = ToLower s.
Proof.
  intros Hs. unfold ToLower. rewrite Hs, (lowerASCII_isASCII _ Hs).
  split; [done|]. split; [apply lowerASCII_no_upper|].
  split; [apply lowerASCII_length|]. apply lowerASCII_fixed, lowerASCII_no_upper.
Qed.

Lemma length_nonzero line : line <> "" -> (String.length line =? 0) = false.
Proof. by destruct line. Qed.

(** The blank line, in every phase. *)
Lemma parse_blank r : parse "" r = (terminated r, None).
Proof. done. Qed.

Lemma parse_start_error line r :
  line <> "" -> wroteProtocol r = false -> length (Split line " ") <> 3 ->
  parse line r = (r, Some errProtocolLine).
Proof.
  intros Hline Hproto Hlen. unfold parse.
  rewrite (length_nonzero _ Hline), Hproto. simpl.
  by destruct (Nat.eqb_spec (length (Split line " ")) 3).
Qed.

Lemma parse_start_ok line r method path protocol :
  line <> "" -> wroteProtocol r = false -> Split line " " = [method; path; protocol] ->
  parse line r = (withStartLine method path protocol r, None).
Proof.
  intros Hline Hproto Hsplit. unfold parse.
  by rewrite (length_nonzero _ Hline), Hproto, Hsplit.
Qed.

Lemma parse_header_error line r :
  line <> "" -> wroteProtocol r = true -> wroteHeaders r = false ->
  Index line ": " = None ->
  parse line r = (r, Some errInvalidHeader).
Proof.
  intros Hline Hproto Hhdrs Hnone. unfold parse.
  rewrite (length_nonzero _ Hline), Hproto, Hhdrs, (SplitN_2 _ _ Hline). simpl.
  by rewrite Hnone.
Qed.

Lemma parse_header_ok line r i :
  line <> "" -> wroteProtocol r = true -> wroteHeaders r = false ->
  Index line ": " = Some i ->
  parse line r =
  (withHeader (ToLower (sliceTo i line)) (ToLower (sliceFrom (i + 2) line)) r, None).
Proof.
  intros Hline Hproto Hhdrs Hi. unfold parse.
  rewrite (length_nonzero _ Hline), Hproto, Hhdrs, (SplitN_2 _ _ Hline). simpl.
  rewrite Hi. unfold withHeader. by rewrite Hproto, Hhdrs.
Qed.

(** Past the headers a line that is not blank is skipped. *)
Lemma parse_skip line r :
  line <> "" -> wroteProtocol r = true -> wroteHeaders r = true ->
  parse line r = (r, None).
Proof.
  intros Hline Hproto Hhdrs. unfold parse.
  by rewrite (length_nonzero _ Hline), Hproto, Hhdrs.
Qed.

Lemma terminated_fixed r :
  wroteHeaders r = true -> done r = true -> terminated r = r.
Proof. destruct r; simpl; intros -> ->; done. Qed.

Lemma not_Contains s p : Contains s p = false -> Index s p = None.
Proof. unfold Contains. by destruct (Index s p). Qed.

(** A start line of three fields without spaces splits into them. *)
Lemma Split_startLine method path protocol :
  Contains method " " = false -> Contains path " " = false ->
  Contains protocol " " = false ->
  Split (startLine method path protocol) " " = [method; path; protocol].
Proof.
  intros Hm%not_Contains Hp%not_Contains Hv%not_Contains.
  rewrite Split_eq, Count_byte. unfold startLine.
  rewrite !countByte_app, (Index_byte_None _ _ Hm), (Index_byte_None _ _ Hp),
    (Index_byte_None _ _ Hv).
  change (0 + (countByte " " " " + (0 + (countByte " " " " + 0)))) with 2.
  cbn [splitLoop].
  change (method +:+ " " +:+ path +:+ " " +:+ protocol)
    with (method +:+ String " " (path +:+ " " +:+ protocol)).
  rewrite (Index_app_byte _ _ _ Hm), sliceTo_app, sliceFrom_app_plus.
  change (sliceFrom (String.length " ") (String " " (path +:+ " " +:+ protocol)))
    with (path +:+ String " " protocol).
  by rewrite (Index_app_byte _ _ _ Hp), sliceTo_app, sliceFrom_app_plus.
Qed.

Lemma startLine_nonempty method path protocol : startLine method path protocol <> "".
Proof. unfold startLine. by destruct method. Qed.

(** A header line splits at its first colon-space. *)
Lemma Index_headerLine name value :
  Contains name ": " = false ->
  Index (headerLine (name, value)) ": " = Some (String.length name).
Proof. intros Hn%not_Contains. by apply Index_app_colon. Qed.

Lemma headerLine_nonempty h : headerLine h <> "".
Proof. unfold headerLine. by destruct h.1. Qed.

Lemma parse_headerLine name value r :
  wroteProtocol r = true -> wroteHeaders r = false ->
  Contains name ": " = false ->
  parse (headerLine (name, value)) r = (withHeader (ToLower name) (ToLower value) r, None).
Proof.
  intros Hproto Hhdrs Hname.
  rewrite (parse_header_ok _ _ _ (headerLine_nonempty _) Hproto Hhdrs
             (Index_headerLine _ value Hname)).
  unfold headerLine. simpl fst. simpl snd.
  rewrite sliceTo_app, sliceFrom_app_plus. done.
Qed.

(** Every call of [parse] is one of the six steps. *)
Lemma parse_step line r : parseStep r line (parse line r).1 (parse line r).2.
Proof.
  destruct (decide (line = "")) as [->|Hline]; [apply step_blank|].
  destruct (wroteProtocol r) eqn:Hproto.
  - destruct (wroteHeaders r) eqn:Hhdrs.
    + rewrite (parse_skip _ _ Hline Hproto Hhdrs). by apply step_skip.
    + destruct (Index line ": ") as [i|] eqn:Hi.
      * rewrite (parse_header_ok _ _ _ Hline Hproto Hhdrs Hi). by apply step_header.
      * rewrite (parse_header_error _ _ Hline Hproto Hhdrs Hi). by apply step_header_error.
  - destruct (decide (length (Split line " ") = 3)) as [Hlen|Hlen].
    + destruct (Split line " ") as [|m [|p [|v [|? ?]]]] eqn:Hsplit; try done.
      rewrite (parse_start_ok _ _ _ _ _ Hline Hproto Hsplit). by apply step_start.
    + rewrite (parse_start_error _ _ Hline Hproto Hlen). by apply step_start_error.
Qed.

Lemma parseAll_snoc lines line r :
  parseAll (lines ++ [line]) r = (parse line (parseAll lines r)).1.
Proof. unfold parseAll. by rewrite fold_left_app. Qed.

Lemma parseAll_cons line lines r :
  parseAll (line :: lines) r = parseAll lines (parse line r).1.
Proof. done. Qed.

(** A property of the new request that every call of [parse] keeps holds
    after every sequence of calls. *)
Lemma parseAll_invariant (P : Request -> Prop) r0 :
  P r0 -> (forall r line, P r -> P (parse line r).1) ->
  forall lines, P (parseAll lines r0).
Proof.
  intros H0 Hstep lines. induction lines as [|line lines IH] using rev_ind; [done|].
  rewrite parseAll_snoc. by apply Hstep.
Qed.

(** The flags only go up, [done] with [wroteHeaders], and the body is not
    touched. *)
Lemma parse_done_wroteHeaders r line :
  (done r = true -> wroteHeaders r = true) ->
  done (parse line r).1 = true -> wroteHeaders (parse line r).1 = true.
Proof. intros Hr. destruct (parse_step line r); simpl; auto. Qed.

Lemma parse_headers_after_protocol r line :
  (wroteProtocol r = false -> Headers r = ∅) ->
  wroteProtocol (parse line r).1 = false -> Headers (parse line r).1 = ∅.
Proof.
  intros Hr. destruct (parse_step line r); simpl; auto; try done.
  congruence.
Qed.

Lemma parse_Body r line : Body (parse line r).1 = Body r.
Proof. by destruct (parse_step line r). Qed.

Lemma parse_wroteHeaders_mono r line :
  wroteHeaders r = true -> wroteHeaders (parse line r).1 = true.
Proof. by destruct (parse_step line r). Qed.

Lemma parse_wroteHeaders_blank r line :
  wroteHeaders r = false -> wroteHeaders (parse line r).1 = true -> line = "".
Proof. destruct (parse_step line r); simpl; congruence. Qed.

Lemma parseAll_done_wroteHeaders lines :
  done (parseAll lines newRequest) = true -> wroteHeaders (parseAll lines newRequest) = true.
Proof.
  apply (parseAll_invariant (fun r => done r = true -> wroteHeaders r = true)); [done|].
  intros r line. apply parse_done_wroteHeaders.
Qed.

Lemma parseAll_headers_after_protocol lines :
  wroteProtocol (parseAll lines newRequest) = false -> Headers (parseAll lines newRequest) = ∅.
Proof.
  apply (parseAll_invariant (fun r => wroteProtocol r = false -> Headers r = ∅)); [done|].
  intros r line. apply parse_headers_after_protocol.
Qed.

Lemma parseAll_Body lines r : Body (parseAll lines r) = Body r.
Proof.
  revert r. induction lines as [|line lines IH]; intros r; [done|].
  by rewrite parseAll_cons, IH, parse_Body.
Qed.

End ParseFacts.

(** * The claims about [parse] *)

Section ParseClaims.

Context `{UnicodeCase}.

Lemma parse_wroteHeaders_nonblank r line :
  line <> "" -> wroteHeaders (parse line r).1 = wroteHeaders r.
Proof. intros Hline. by destruct (parse_step line r). Qed.

Lemma parse_Headers_changed r line :
  Headers (parse line r).1 <> Headers r -> wroteProtocol r = true.
Proof. by destruct (parse_step line r). Qed.

Lemma parseAll_wroteHeaders_mono lines r :
  wroteHeaders r = true -> wroteHeaders (parseAll lines r) = true.
Proof.
  revert r. induction lines as [|line lines IH]; intros r Hr; [done|].
  rewrite parseAll_cons. by apply IH, parse_wroteHeaders_mono.
Qed.

Lemma parseAll_wroteHeaders lines r :
  wroteHeaders (parseAll lines r) = true <-> wroteHeaders r = true \/ "" ∈ lines.
Proof.
  revert r. induction lines as [|line lines IH]; intros r.
  - simpl. split; [auto|]. intros [?|Hin]; [done|]. by apply elem_of_nil in Hin.
  - rewrite parseAll_cons, IH, elem_of_cons.
    destruct (decide (line = "")) as [->|Hline].
    + rewrite parse_blank. simpl. tauto.
    + rewrite (parse_wroteHeaders_nonblank _ _ Hline).
      split; [intros [?|?]; auto|intros [?|[?|?]]; auto; congruence].
Qed.

Lemma headersTerminations_eq lines r :
  headersTerminations lines r =
  if negb (wroteHeaders r) && wroteHeaders (parseAll lines r) then 1 else 0.
Proof.
  revert r. induction lines as [|line lines IH]; intros r.
  - simpl. by destruct (wroteHeaders r).
  - cbn [headersTerminations]. rewrite IH, parseAll_cons.
    destruct (wroteHeaders r) eqn:Hr.
    + by rewrite (parse_wroteHeaders_mono _ line Hr).
    + destruct (wroteHeaders (parse line r).1) eqn:Hr'; simpl; [|done].
      by rewrite (parseAll_wroteHeaders_mono lines _ Hr').
Qed.

(** C2, as the code has it: a zero-length line is handled by the
    blank-line rule in every phase, also before the start line.  [parse]
    sets [wroteHeaders] and [done], returns nil and leaves the other fields
    as they were; the start-line rule, under which the single field that
    splitting the line gives would be malformed, is not reached. *)
Theorem blank_line_ends_headers_in_every_phase (r : Request) :
  parse "" r = (terminated r, None) /\
  wroteHeaders (parse "" r).1 = true /\ done (parse "" r).1 = true /\
  Method (parse "" r).1 = Method r /\ Path (parse "" r).1 = Path r /\
  Protocol (parse "" r).1 = Protocol r /\ Headers (parse "" r).1 = Headers r /\
  wroteProtocol (parse "" r).1 = wroteProtocol r /\
  length (Split "" " ") = 1.
Proof. rewrite parse_blank. repeat split. Qed.

(** C3, as the code has it: [parse] never reads or stores a body.  After
    any sequence of calls, and after the read loop of the handler, [Body] is
    what it was before; for the request the handler creates it is absent,
    whatever [content-length] the headers carry. *)
Theorem body_is_never_set (lines : list string) (r : Request) :
  Body (parseAll lines r) = Body r /\
  Body (readRequest lines r).1 = Body r /\
  Body (readRequest lines newRequest).1 = "".
Proof.
  assert (Hread : forall r0, Body (readRequest lines r0).1 = Body r0).
  { induction lines as [|line lines IH]; intros r0; [done|].
    cbn [readRequest]. pose proof (parse_Body r0 line) as Hb.
    destruct (parse line r0) as [r' [err|]]; simpl in *; [done|].
    destruct (done r'); simpl; [done|]. by rewrite IH. }
  split; [apply parseAll_Body|]. split; [apply Hread|]. by rewrite Hread.
Qed.

(** C6: after every sequence of [parse] calls on the new request,
    (1) [done] is true only if [wroteHeaders] is; (2) no header is stored
    while [wroteProtocol] is false: the map is empty then, and a call that
    changes it finds [wroteProtocol] true; (3) [wroteHeaders] becomes true
    only on a zero-length line, it goes from false to true exactly once
    when the sequence has such a line, and never otherwise. *)
Theorem parse_invariants (lines : list string) :
  let r := parseAll lines newRequest in
  (done r = true -> wroteHeaders r = true) /\
  ((wroteProtocol r = false -> Headers r = ∅) /\
   (forall line, Headers (parse line r).1 <> Headers r -> wroteProtocol r = true)) /\
  ((forall line, wroteHeaders r = false -> wroteHeaders (parse line r).1 = true -> line = "") /\
   headersTerminations lines newRequest = (if wroteHeaders r then 1 else 0) /\
   (wroteHeaders r = true <-> "" ∈ lines)).
Proof.
  intros r. split; [apply parseAll_done_wroteHeaders|].
  split.
  - split; [apply parseAll_headers_after_protocol|]. intros line. apply parse_Headers_changed.
  - split; [intros line; apply parse_wroteHeaders_blank|].
    split; [apply headersTerminations_eq|].
    unfold r. rewrite parseAll_wroteHeaders. simpl.
    split; [by intros [?|?]|auto].
Qed.

(** C7: a non-empty line presented before the start line is parsed, which
    does not split on single spaces into exactly 3 fields, makes [parse]
    return the protocol-line error and leaves the request as it was. *)
Theorem malformed_start_line_rejected (r : Request) (line : string) :
  line <> "" -> wroteProtocol r = false -> length (Split line " ") <> 3 ->
  parse line r = (r, Some errProtocolLine).
Proof. apply parse_start_error. Qed.

(** C8: in the header phase a non-empty line without colon-space makes
    [parse] return the invalid-header error; a line that has one is cut at
    the first, the name before it and the whole rest after it (later
    colon-spaces included) are lower-cased and stored, lower-casing being
    [strings.ToLower], which on ASCII bytes turns [A]..[Z] into [a]..[z]. *)
Theorem header_line_parsed (r : Request) :
  wroteProtocol r = true -> wroteHeaders r = false ->
  (forall line, line <> "" -> Contains line ": " = false ->
     parse line r = (r, Some errInvalidHeader)) /\
  (forall name value, Contains name ": " = false ->
     parse (name +:+ ": " +:+ value) r =
     (withHeader (ToLower name) (ToLower value) r, None)) /\
  (forall s, isASCII s = true ->
     ToLower s = lowerASCII s /\ hasUpper (ToLower s) = false).
Proof.
  intros Hproto Hhdrs. split; [|split].
  - intros line Hline Hnone%not_Contains. by apply parse_header_error.
  - intros name value Hname. by apply (parse_headerLine name value r).
  - intros s Hs. destruct (ToLower_ASCII s Hs) as (? & ? & _). done.
Qed.

(** C9: two header lines of the same lower-cased name, parsed one after
    the other, leave one entry under that name, with the value of the
    second; the other entries are as before. *)
Theorem repeated_header_overwrites (r : Request) (n1 v1 n2 v2 : string) :
  wroteProtocol r = true -> wroteHeaders r = false ->
  Contains n1 ": " = false -> Contains n2 ": " = false ->
  ToLower n1 = ToLower n2 ->
  let r' := parseAll [headerLine (n1, v1); headerLine (n2, v2)] r in
  Headers r' = <[ToLower n2 := ToLower v2]> (Headers r) /\
  Headers r' !! ToLower n1 = Some (ToLower v2) /\
  (forall k, k <> ToLower n1 -> Headers r' !! k = Headers r !! k).
Proof.
  intros Hproto Hhdrs Hn1 Hn2 Heq r'.
  assert (Hr' : Headers r' = <[ToLower n2 := ToLower v2]> (Headers r)).
  { unfold r'. rewrite !parseAll_cons.
    rewrite (parse_headerLine n1 v1 r Hproto Hhdrs Hn1). simpl.
    rewrite (parse_headerLine n2 v2 (withHeader _ _ r) Hproto Hhdrs Hn2). simpl.
    rewrite Heq. apply insert_insert_eq. }
  rewrite Hr', Heq. split; [done|]. split; [apply lookup_insert_eq|].
  intros k Hk. by apply lookup_insert_ne.
Qed.

(** C10: every request that a sequence of [parse] calls on the new
    request has brought to [done] and [wroteProtocol] is left as it is, in
    every field, by every further call of [parse], which returns nil,
    whether the line is empty or not.  This is so because [done] is only set
    together with [wroteHeaders], and a request in which the three flags are
    true is left as it is by [parse]. *)
Theorem completed_request_ignores_lines :
  (forall r line, done r = true -> wroteProtocol r = true -> wroteHeaders r = true ->
     parse line r = (r, None)) /\
  (forall lines line,
     let r := parseAll lines newRequest in
     done r = true -> wroteProtocol r = true -> parse line r = (r, None)).
Proof.
  assert (Hfix : forall r line, done r = true -> wroteProtocol r = true ->
                   wroteHeaders r = true -> parse line r = (r, None)).
  { intros r line Hdone Hproto Hhdrs.
    destruct (decide (line = "")) as [->|Hline].
    - by rewrite parse_blank, terminated_fixed.
    - by apply parse_skip. }
  split; [done|]. intros lines line r Hdone Hproto.
  apply Hfix; [done..|]. by apply parseAll_done_wroteHeaders.
Qed.

End ParseClaims.

(** * The claims about whole requests and responses *)

Section RequestClaims.

Context `{UnicodeCase}.

Lemma HasPrefix_app_true s t p : HasPrefix s p = true -> HasPrefix (s +:+ t) p = true.
Proof.
  intros [u ->]%HasPrefix_inv. rewrite append_assoc. apply HasPrefix_app.
Qed.

(** Every line that contains colon-space is a name without one, the
    separator, and a value. *)
Lemma header_line_shape line :
  Contains line ": " = true ->
  exists name value, line = headerLine (name, value) /\ Contains name ": " = false.
Proof.
  unfold Contains. destruct (Index line ": ") as [i|] eqn:Hi; [intros _|done].
  destruct (Index_Some _ _ _ Hi) as (Hle & Hpre & Hmin).
  destruct (HasPrefix_inv _ _ Hpre) as [value Hvalue].
  exists (sliceTo i line), value. split.
  - unfold headerLine. cbn [fst snd]. by rewrite <- Hvalue, slice_cat.
  - destruct (Index (sliceTo i line) ": ") as [k|] eqn:Hk; [|done].
    destruct (Index_Some _ _ _ Hk) as (Hkle & Hkpre & _).
    rewrite sliceTo_length in Hkle by done.
    assert (Hlt : k < i).
    { destruct (decide (k = i)) as [->|]; [|lia].
      rewrite <- (sliceTo_length i line Hle) in Hkpre at 1.
      rewrite <- (append_nil_r (sliceTo i line)) in Hkpre at 2.
      by rewrite sliceFrom_app in Hkpre. }
    specialize (Hmin k Hlt).
    rewrite <- (slice_cat i line), sliceFrom_app_le in Hmin
      by (rewrite sliceTo_length; lia).
    by rewrite (HasPrefix_app_true _ _ _ Hkpre) in Hmin.
Qed.

(** The header fields as [parse] stores them one by one. *)
Lemma store_fields hs r :
  let r' := fold_left (fun r h => withHeader (ToLower h.1) (ToLower h.2) r) hs r in
  Method r' = Method r /\ Path r' = Path r /\ Protocol r' = Protocol r /\
  wroteProtocol r' = wroteProtocol r /\ wroteHeaders r' = wroteHeaders r /\
  done r' = done r /\ Body r' = Body r /\
  Headers r' = storeHeaders hs (Headers r).
Proof.
  revert r. induction hs as [|h hs IH]; intros r; [done|].
  simpl. apply (IH (withHeader _ _ r)).
Qed.

Lemma readRequest_headers hs r :
  wroteProtocol r = true -> wroteHeaders r = false -> done r = false ->
  Forall (fun h => Contains h.1 ": " = false) hs ->
  readRequest (map headerLine hs ++ [""]) r =
  (terminated (fold_left (fun r h => withHeader (ToLower h.1) (ToLower h.2) r) hs r),
   Break).
Proof.
  revert r. induction hs as [|[name value] hs IH]; intros r Hproto Hhdrs Hdone Hhs.
  - cbn [map app readRequest]. by rewrite parse_blank.
  - inversion Hhs as [|? ? Hname Hrest]; subst. simpl in Hname.
    cbn [map app readRequest].
    rewrite (parse_headerLine name value r Hproto Hhdrs Hname).
    cbn [done withHeader]. rewrite Hdone.
    by rewrite (IH (withHeader (ToLower name) (ToLower value) r)).
Qed.

Lemma storeHeaders_lookup hs m k :
  storeHeaders hs m !! k =
  fold_left (fun acc h => if decide (ToLower h.1 = k) then Some (ToLower h.2) else acc)
    hs (m !! k).
Proof.
  revert m. induction hs as [|h hs IH]; intros m; [done|].
  unfold storeHeaders in *. simpl. by rewrite IH, lookup_insert.
Qed.

Lemma lastValue_app hs1 h hs2 k :
  ToLower h.1 = k -> Forall (fun h' => ToLower h'.1 <> k) hs2 ->
  lastValue k (hs1 ++ h :: hs2) = Some (ToLower h.2).
Proof.
  intros Hk Hlater. unfold lastValue. rewrite fold_left_app. simpl.
  rewrite decide_True by done.
  generalize (ToLower h.2). induction Hlater as [|h' hs2 Hh' _ IH]; intros v; [done|].
  simpl. by rewrite decide_False.
Qed.

Lemma lastValue_is_Some hs h : h ∈ hs -> is_Some (lastValue (ToLower h.1) hs).
Proof.
  intros (hs1 & hs2 & ->)%list_elem_of_split.
  unfold lastValue. rewrite fold_left_app. simpl. rewrite decide_True by done.
  assert (Hsome : is_Some (Some (ToLower h.2))) by done.
  revert Hsome. generalize (Some (ToLower h.2)).
  induction hs2 as [|h' hs2 IH]; intros acc Hacc; [done|].
  simpl. apply IH. by destruct (decide _).
Qed.

(** C1, as the code has it: driving [parse] over a start line of three
    fields without spaces, header lines of a name without colon-space, the
    separator and a value, and the blank line leaves the loop at the blank
    line with [done] true; Method, Path and Protocol are the three fields as
    transmitted; under every key the map holds the lower-cased value of the
    last header line with that lower-cased name, so every header line has an
    entry under its lower-cased name, and that entry has the line's own
    lower-cased value when no later line repeats the name. *)
Theorem wellformed_request_parsed
  (method path protocol : string) (hs : list (string * string)) :
  Contains method " " = false -> Contains path " " = false ->
  Contains protocol " " = false ->
  Forall (fun h => Contains h.1 ": " = false) hs ->
  exists r,
    readRequest (requestLines method path protocol hs) newRequest = (r, Break) /\
    Method r = method /\ Path r = path /\ Protocol r = protocol /\ done r = true /\
    Headers r = storeHeaders hs ∅ /\
    (forall k, Headers r !! k = lastValue k hs) /\
    (forall h, h ∈ hs -> is_Some (Headers r !! ToLower h.1)) /\
    (forall hs1 h hs2, hs = (hs1 ++ h :: hs2)%list ->
       Forall (fun h' => ToLower h'.1 <> ToLower h.1) hs2 ->
       Headers r !! ToLower h.1 = Some (ToLower h.2)).
Proof.
  intros Hm Hp Hv Hhs.
  set (r1 := withStartLine method path protocol newRequest).
  destruct (store_fields hs r1) as (HM & HP & HV & _ & _ & _ & _ & HH).
  eexists. split.
  - unfold requestLines. cbn [readRequest].
    rewrite (parse_start_ok _ newRequest method path protocol
               (startLine_nonempty _ _ _) eq_refl (Split_startLine _ _ _ Hm Hp Hv)).
    cbn [done withStartLine newRequest].
    by apply (readRequest_headers hs r1).
  - assert (Hlookup : forall k, storeHeaders hs ∅ !! k = lastValue k hs).
    { intros k. by rewrite storeHeaders_lookup, lookup_empty. }
    simpl. rewrite HM, HP, HV, HH. simpl.
    repeat split; try done.
    + intros h Hh. rewrite Hlookup. by apply lastValue_is_Some.
    + intros hs1 h hs2 -> Hlater. rewrite Hlookup. by apply lastValue_app.
Qed.

Lemma parse_done_nonblank r line : line <> "" -> done (parse line r).1 = done r.
Proof. intros Hline. by destruct (parse_step line r). Qed.

Lemma readRequest_no_blank lines r :
  "" ∉ lines -> done r = false ->
  (exists r' err, readRequest lines r = (r', ParseError err)) \/
  (readRequest lines r = (parseAll lines r, EndOfInput) /\
   done (parseAll lines r) = false).
Proof.
  revert r. induction lines as [|line lines IH]; intros r Hnb Hdone; [by right|].
  apply not_elem_of_cons in Hnb as [Hline Hnb].
  cbn [readRequest]. rewrite parseAll_cons.
  pose proof (parse_done_nonblank r line ltac:(congruence)) as Hd.
  destruct (parse line r) as [r' [err|]]; simpl in *; [left; eauto|].
  rewrite Hd, Hdone. apply IH; [done|congruence].
Qed.

(** The router answers 200 exactly to [GET /]. *)
Lemma respond_spec req :
  respond req =
  if decide (Method req = "GET" /\ Path req = "/") then writeOK "Gopher!!"
  else writeNotFound.
Proof.
  unfold respond.
  destruct (String.eqb_spec (Path req) "/"), (String.eqb_spec (Method req) "GET");
    simpl; case_decide; intuition congruence.
Qed.

(** C4, as the code has it: when the lines end before a zero-length line,
    the handler does not take that for a failure.  Either some line is
    malformed, and the connection is closed with nothing written; or the
    loop ends at the end of the input with [done] false and the handler
    goes on to write the response for the request parsed so far, 200 for
    [GET /] and 404 otherwise. *)
Theorem missing_blank_line_is_answered (lines : list string) :
  "" ∉ lines ->
  (exists r err, readRequest lines newRequest = (r, ParseError err) /\
                 handleConnection_v5 lines = None) \/
  (let r := parseAll lines newRequest in
   readRequest lines newRequest = (r, EndOfInput) /\ done r = false /\
   handleConnection_v5 lines = Some (respond r) /\
   respond r = if decide (Method r = "GET" /\ Path r = "/") then writeOK "Gopher!!"
               else writeNotFound).
Proof.
  intros Hnb. unfold handleConnection_v5.
  destruct (readRequest_no_blank lines newRequest Hnb eq_refl)
    as [(r & err & Hr)|[Hr Hdone]]; rewrite Hr.
  - left. by exists r, err.
  - right. repeat split; try done. apply respond_spec.
Qed.

(** C5: the bytes written for the body [Gopher!!] are the status line, the
    one header [Content-Length: 8] and the blank line, each ended by CRLF,
    then the body; in general the header carries the decimal length of the
    body and is the only one.  Read back line by line with [parse], these
    bytes give the entry [content-length] with value [8], the loop stops at
    the blank line, and the 8 bytes left unread are the body. *)
Theorem response_bytes_round_trip :
  handleConnection_v4 =
    "HTTP/1.1 200 OK" +:+ CRLF +:+ "Content-Length: 8" +:+ CRLF +:+ CRLF +:+ "Gopher!!" /\
  (forall dataToWrite,
     writeOK dataToWrite =
       "HTTP/1.1 200 OK" +:+ CRLF +:+
       "Content-Length: " +:+ Strconv.Itoa (String.length dataToWrite) +:+ CRLF +:+
       CRLF +:+ dataToWrite) /\
  handleConnection_v5 ["GET / HTTP/1.1"; "Host: localhost:8080"; ""]
    = Some handleConnection_v4 /\
  Lines handleConnection_v4 = ["HTTP/1.1 200 OK"; "Content-Length: 8"; ""; "Gopher!!"] /\
  exists r,
    readStream (String.length handleConnection_v4) handleConnection_v4 newRequest
      = (r, Break, "Gopher!!") /\
    Headers r !! "content-length" = Some "8" /\
    contentLength r = Some 8 /\
    readBody r "Gopher!!" = Some "Gopher!!".
Proof.
  split; [done|]. split.
  { intros dataToWrite. unfold writeOK, WriteString, Write.
    by rewrite !append_assoc. }
  split; [by vm_compute|]. split; [by vm_compute|].
  eexists. split; [by vm_compute|]. by vm_compute.
Qed.

End RequestClaims.

(** * The read loop over the bytes of a connection *)

Section ScannerFacts.

Context `{UnicodeCase}.

(** Every line [Scan] yields uses up at least one byte. *)
Lemma Scan_shorter data line rest :
  Scan data = Some (line, rest) -> String.length rest < String.length data.
Proof.
  unfold Scan, ScanLines. destruct data as [|b data]; [done|].
  cbn [String.length Nat.eqb andb].
  destruct (IndexByte (String b data) LF) as [i|]; intros [= _ <-];
    rewrite sliceFrom_length; simpl; lia.
Qed.

(** The length of the data is fuel enough for [scanAll]. *)
Lemma scanAll_fuel fuel1 fuel2 data :
  String.length data <= fuel1 -> String.length data <= fuel2 ->
  scanAll fuel1 data = scanAll fuel2 data.
Proof.
  revert fuel2 data. induction fuel1 as [|fuel1 IH]; intros fuel2 data H1 H2.
  - destruct data; [|simpl in H1; lia]. by destruct fuel2.
  - destruct fuel2 as [|fuel2]; [destruct data; [done|simpl in H2; lia]|].
    simpl. destruct (Scan data) as [[line rest]|] eqn:Hscan; [|done].
    apply Scan_shorter in Hscan. f_equal. apply IH; lia.
Qed.

(** The loop over the bytes is the loop over their lines. *)
Lemma readStream_lines fuel data req :
  (readStream fuel data req).1 = readRequest (scanAll fuel data) req.
Proof.
  revert data req. induction fuel as [|fuel IH]; intros data req; [done|].
  simpl. destruct (Scan data) as [[line rest]|]; [|done].
  simpl. destruct (parse line req) as [req' [err|]]; [done|].
  destruct (done req'); [done|]. apply IH.
Qed.

Lemma readStream_Lines data req :
  (readStream (String.length data) data req).1 = readRequest (Lines data) req.
Proof. apply readStream_lines. Qed.

End ScannerFacts.

(** * Further properties of [parse] *)

Section ParseProperties.

Context `{UnicodeCase}.

Lemma sliceFrom_plus a b s : sliceFrom (a + b) s = sliceFrom b (sliceFrom a s).
Proof.
  revert s. induction a as [|a IH]; intros [|c s]; simpl; try done.
  by destruct b.
Qed.

(** [s] is what is before the first instance, the instance, and what is
    after it. *)
Lemma Index_Some_split s sep i :
  Index s sep = Some i ->
  s = sliceTo i s +:+ sep +:+ sliceFrom (i + String.length sep) s.
Proof.
  intros (_ & [t Ht]%HasPrefix_inv & _)%Index_Some.
  rewrite sliceFrom_plus, Ht, sliceFrom_app, <- Ht. by rewrite slice_cat.
Qed.

(** Nothing before the first instance holds an instance. *)
Lemma Index_sliceTo_None s sep i :
  sep <> "" -> Index s sep = Some i -> Index (sliceTo i s) sep = None.
Proof.
  intros Hsep (Hle & _ & Hmin)%Index_Some.
  destruct (Index (sliceTo i s) sep) as [k|] eqn:Hk; [|done].
  destruct (Index_Some _ _ _ Hk) as (Hkle & Hkpre & _).
  rewrite sliceTo_length in Hkle by done.
  assert (Hlt : k < i).
  { destruct (decide (k = i)) as [->|]; [|lia].
    rewrite <- (sliceTo_length i s Hle) in Hkpre at 1.
    rewrite <- (append_nil_r (sliceTo i s)) in Hkpre at 2.
    rewrite sliceFrom_app in Hkpre. by destruct sep. }
  specialize (Hmin k Hlt).
  rewrite <- (slice_cat i s), sliceFrom_app_le in Hmin by (rewrite sliceTo_length; lia).
  destruct (HasPrefix_inv _ _ Hkpre) as [u Hu].
  by rewrite Hu, append_assoc, HasPrefix_app in Hmin.
Qed.

Lemma countByte_zero c s : countByte c s = 0 -> Index s (String c "") = None.
Proof.
  intros Hzero. destruct (Index s (String c "")) as [i|] eqn:Hi; [|done].
  apply Index_byte_Some in Hi. lia.
Qed.

(** The three fields [Split] makes of a line are the line cut at its two
    spaces. *)
Lemma Split_three line method path protocol :
  Split line " " = [method; path; protocol] ->
  line = startLine method path protocol /\
  Contains method " " = false /\ Contains path " " = false /\
  Contains protocol " " = false.
Proof.
  intros Hsplit.
  assert (Hcount : countByte " " line = 2).
  { pose proof (Split_space_length line) as Hlen. rewrite Hsplit in Hlen.
    simpl in Hlen. lia. }
  rewrite Split_eq, Count_byte, Hcount in Hsplit. cbn [splitLoop] in Hsplit.
  change (String.length " ") with 1 in Hsplit.
  destruct (Index line " ") as [i|] eqn:Hi; [|done].
  destruct (Index (sliceFrom (i + 1) line) " ") as [j|] eqn:Hj; [|done].
  injection Hsplit as <- <- <-.
  pose proof (Index_Some_split _ _ _ Hi) as Hline.
  pose proof (Index_Some_split _ _ _ Hj) as Hrest.
  change (String.length " ") with 1 in Hline, Hrest.
  assert (Hne : " " <> "") by done.
  pose proof (Index_sliceTo_None _ _ _ Hne Hi) as Hm.
  pose proof (Index_sliceTo_None _ _ _ Hne Hj) as Hp.
  assert (Hv : Index (sliceFrom (j + 1) (sliceFrom (i + 1) line)) " " = None).
  { apply countByte_zero.
    rewrite Hline, Hrest, !countByte_app in Hcount at 1.
    rewrite (Index_byte_None _ _ Hm), (Index_byte_None _ _ Hp) in Hcount.
    change (countByte " " " ") with 1 in Hcount. lia. }
  unfold Contains, startLine. rewrite Hm, Hp, Hv.
  split; [|done]. by rewrite <- Hrest.
Qed.

(** X1: before the start line is parsed, a non-empty line is accepted
    exactly when it has two space bytes; each further or missing space
    makes it a malformed start line, and empty fields are accepted. *)
Theorem start_line_accepted_iff_two_spaces (r : Request) (line : string) :
  line <> "" -> wroteProtocol r = false ->
  ((parse line r).2 = None <-> countByte " " line = 2).
Proof.
  intros Hline Hproto. pose proof (Split_space_length line) as Hlen.
  destruct (decide (length (Split line " ") = 3)) as [H3|H3].
  - destruct (Split line " ") as [|m [|p [|v [|? ?]]]] eqn:Hsplit; try done.
    rewrite (parse_start_ok _ _ _ _ _ Hline Hproto Hsplit). simpl. split; [lia|done].
  - rewrite (parse_start_error _ _ Hline Hproto H3). simpl. split; [done|lia].
Qed.

(** X2: an accepted start line can be read back from the request: it is
    Method, Path and Protocol joined by single spaces, none of the three has
    a space, and the call changes nothing else but [wroteProtocol]. *)
Theorem accepted_start_line_round_trip (r r' : Request) (line : string) :
  line <> "" -> wroteProtocol r = false -> parse line r = (r', None) ->
  line = startLine (Method r') (Path r') (Protocol r') /\
  Contains (Method r') " " = false /\ Contains (Path r') " " = false /\
  Contains (Protocol r') " " = false /\
  r' = withStartLine (Method r') (Path r') (Protocol r') r.
Proof.
  intros Hline Hproto Hparse.
  destruct (decide (length (Split line " ") = 3)) as [H3|H3].
  - destruct (Split line " ") as [|m [|p [|v [|? ?]]]] eqn:Hsplit; try done.
    rewrite (parse_start_ok _ _ _ _ _ Hline Hproto Hsplit) in Hparse.
    injection Hparse as <-. simpl.
    destruct (Split_three _ _ _ _ Hsplit) as (? & ? & ? & ?). done.
  - by rewrite (parse_start_error _ _ Hline Hproto H3) in Hparse.
Qed.

(** X3: in the header phase a non-empty line is accepted exactly when it
    contains colon-space, and an accepted line is a name without
    colon-space, the separator and a value, stored lower-cased. *)
Theorem header_line_accepted_iff_separator (r : Request) (line : string) :
  line <> "" -> wroteProtocol r = true -> wroteHeaders r = false ->
  ((parse line r).2 = None <-> Contains line ": " = true) /\
  (forall r', parse line r = (r', None) ->
     exists name value,
       line = name +:+ ": " +:+ value /\ Contains name ": " = false /\
       r' = withHeader (ToLower name) (ToLower value) r).
Proof.
  intros Hline Hproto Hhdrs. unfold Contains.
  destruct (Index line ": ") as [i|] eqn:Hi.
  - rewrite (parse_header_ok _ _ _ Hline Hproto Hhdrs Hi). simpl.
    split; [done|]. intros r' [= <-].
    exists (sliceTo i line), (sliceFrom (i + 2) line).
    split; [apply (Index_Some_split _ _ _ Hi)|].
    assert (Hne : ": " <> "") by done.
    by rewrite (Index_sliceTo_None _ _ _ Hne Hi).
  - rewrite (parse_header_error _ _ Hline Hproto Hhdrs Hi). simpl. done.
Qed.

(** X4: a call of [parse] that returns an error leaves the request as it
    was; errors come only from non-empty lines before the headers are
    terminated, the protocol-line error before the start line is parsed
    and the invalid-header error after it. *)
Theorem parse_error_has_no_effect (r r' : Request) (line : string) (err : error) :
  parse line r = (r', Some err) ->
  r' = r /\ line <> "" /\
  (err = errProtocolLine /\ wroteProtocol r = false \/
   err = errInvalidHeader /\ wroteProtocol r = true /\ wroteHeaders r = false).
Proof.
  intros Hparse. pose proof (parse_step line r) as Hstep.
  rewrite Hparse in Hstep. simpl in Hstep.
  inversion Hstep; subst; (split; [done|]; split; [done|]); [by left|by right].
Qed.

(** What one call keeps once the start line is parsed. *)
Lemma parse_after_protocol r line :
  wroteProtocol r = true ->
  Method (parse line r).1 = Method r /\ Path (parse line r).1 = Path r /\
  Protocol (parse line r).1 = Protocol r /\ wroteProtocol (parse line r).1 = true.
Proof. intros Hproto. destruct (parse_step line r); simpl; try done; congruence. Qed.

Lemma parse_done_mono r line : done r = true -> done (parse line r).1 = true.
Proof. by destruct (parse_step line r). Qed.

(** X5: the start line is parsed once.  From a request whose start line is
    parsed, no sequence of further calls changes Method, Path or Protocol,
    whatever the lines are, and no flag that is set is ever reset. *)
Theorem start_line_is_parsed_once (lines : list string) (r : Request) :
  wroteProtocol r = true ->
  let r' := parseAll lines r in
  Method r' = Method r /\ Path r' = Path r /\ Protocol r' = Protocol r /\
  wroteProtocol r' = true /\
  (wroteHeaders r = true -> wroteHeaders r' = true) /\
  (done r = true -> done r' = true).
Proof.
  revert r. induction lines as [|line lines IH]; intros r Hproto; [done|].
  destruct (parse_after_protocol r line Hproto) as (Hm & Hp & Hv & Hproto').
  destruct (IH _ Hproto') as (Hm' & Hp' & Hv' & Hw & Hh & Hd).
  cbn zeta in *. rewrite parseAll_cons.
  rewrite Hm', Hp', Hv', Hm, Hp, Hv. repeat split; try done.
  - intros Hr. by apply Hh, parse_wroteHeaders_mono.
  - intros Hr. by apply Hd, parse_done_mono.
Qed.

Lemma parse_Headers_dom r line : dom (Headers r) ⊆ dom (Headers (parse line r).1).
Proof.
  destruct (parse_step line r); simpl; try done.
  rewrite dom_insert_L. apply union_subseteq_r.
Qed.

Lemma parse_Headers_frozen r line :
  wroteHeaders r = true \/ wroteProtocol (parse line r).1 = false ->
  Headers (parse line r).1 = Headers r.
Proof. destruct (parse_step line r); simpl; try done; intros [?|?]; congruence. Qed.

Lemma parse_wroteProtocol_mono r line :
  wroteProtocol r = true -> wroteProtocol (parse line r).1 = true.
Proof. intros Hproto. by destruct (parse_after_protocol r line Hproto) as (_ & _ & _ & ?). Qed.

(** X6: [parse] never removes a header.  Over any sequence of calls the
    names in the map only grow; once the headers are terminated the map no
    longer changes, and as long as the start line is not parsed it has not
    changed. *)
Theorem headers_only_grow (lines : list string) (r : Request) :
  dom (Headers r) ⊆ dom (Headers (parseAll lines r)) /\
  (wroteHeaders r = true -> Headers (parseAll lines r) = Headers r) /\
  (wroteProtocol (parseAll lines r) = false -> Headers (parseAll lines r) = Headers r).
Proof.
  revert r. induction lines as [|line lines IH]; intros r; [done|].
  rewrite parseAll_cons. destruct (IH (parse line r).1) as (Hdom & Hterm & Hstart).
  split; [|split].
  - etrans; [apply parse_Headers_dom|apply Hdom].
  - intros Hr. rewrite Hterm by by apply parse_wroteHeaders_mono.
    apply parse_Headers_frozen. by left.
  - intros Hr. rewrite (Hstart Hr). apply parse_Headers_frozen. right.
    destruct (wroteProtocol (parse line r).1) eqn:Hp; [|done].
    assert (Hall : wroteProtocol (parseAll lines (parse line r).1) = true).
    { clear -Hp. revert Hp. generalize (parse line r).1.
      induction lines as [|l lines IHl]; intros r0 Hr0; [done|].
      rewrite parseAll_cons. by apply IHl, parse_wroteProtocol_mono. }
    congruence.
Qed.

Lemma isASCII_sliceTo n s : isASCII s = true -> isASCII (sliceTo n s) = true.
Proof.
  revert s. induction n as [|n IH]; intros [|c s]; simpl; try done.
  intros [Hc Hs]%andb_true_iff. by rewrite Hc, IH.
Qed.

Lemma isASCII_sliceFrom n s : isASCII s = true -> isASCII (sliceFrom n s) = true.
Proof.
  revert s. induction n as [|n IH]; intros [|c s]; simpl; try done.
  intros [Hc Hs]%andb_true_iff. by apply IH.
Qed.

Lemma isASCII_app a b : isASCII (a +:+ b) = isASCII a && isASCII b.
Proof. induction a as [|c a IH]; simpl; [done|]. by rewrite IH, andb_assoc. Qed.

Lemma parse_lower_case r line :
  isASCII line = true ->
  map_Forall (fun k v => hasUpper k = false /\ hasUpper v = false) (Headers r) ->
  map_Forall (fun k v => hasUpper k = false /\ hasUpper v = false)
    (Headers (parse line r).1).
Proof.
  intros Hline Hr. destruct (parse_step line r); simpl; try done.
  apply map_Forall_insert_2; [|done].
  destruct (ToLower_ASCII _ (isASCII_sliceTo i _ Hline)) as (_ & ? & _).
  destruct (ToLower_ASCII _ (isASCII_sliceFrom (i + 2) _ Hline)) as (_ & ? & _).
  done.
Qed.

(** X7: header names and values are stored in lower case.  After any
    sequence of calls of [parse] on the new request with lines of ASCII
    bytes, no key and no value of the map has a byte in [A]..[Z]. *)
Theorem header_entries_are_lower_case (lines : list string) :
  Forall (fun line => isASCII line = true) lines ->
  map_Forall (fun k v => hasUpper k = false /\ hasUpper v = false)
    (Headers (parseAll lines newRequest)).
Proof.
  intros Hlines.
  assert (Hgen : forall r,
    map_Forall (fun k v => hasUpper k = false /\ hasUpper v = false) (Headers r) ->
    map_Forall (fun k v => hasUpper k = false /\ hasUpper v = false)
      (Headers (parseAll lines r))).
  { induction Hlines as [|line lines Hline _ IH]; intros r Hr; [done|].
    rewrite parseAll_cons. by apply IH, parse_lower_case. }
  apply Hgen. apply map_Forall_empty.
Qed.

Lemma lowerByte_eqb t c :
  isCaselessByte t = true -> Ascii.eqb t (lowerByte c) = Ascii.eqb t c.
Proof.
  unfold isCaselessByte, lowerByte.
  intros [Hup%negb_true_iff Hlow%negb_true_iff]%andb_true_iff.
  destruct (isUpperByte c) eqn:Hc; [|done].
  destruct (Ascii.eqb_spec t c) as [->|_]; [congruence|].
  destruct (Ascii.eqb_spec t (ascii_of_nat (nat_of_ascii c + 32))) as [->|_]; [|done].
  unfold isUpperByte in Hc. apply andb_true_iff in Hc as [Hlo%Nat.leb_le Hhi%Nat.leb_le].
  rewrite nat_ascii_embedding in Hlow by lia.
  apply andb_false_iff in Hlow as [Hl%Nat.leb_gt|Hl%Nat.leb_gt]; lia.
Qed.

Lemma HasPrefix_lower s p :
  caseless p = true -> HasPrefix (lowerASCII s) p = HasPrefix s p.
Proof.
  revert s. induction p as [|a p IH]; intros s Hp; [by rewrite !HasPrefix_nil|].
  simpl in Hp. apply andb_true_iff in Hp as [Ha Hp].
  destruct s as [|b s]; simpl; [done|].
  by rewrite (lowerByte_eqb _ _ Ha), IH.
Qed.

(** Lower-casing moves no instance of a string without letters. *)
Lemma Index_lower s p : caseless p = true -> Index (lowerASCII s) p = Index s p.
Proof.
  intros Hp. induction s as [|c s IH]; [done|].
  rewrite (Index_eq (lowerASCII (String c s)) p), (Index_eq (String c s) p),
    (HasPrefix_lower _ _ Hp).
  simpl. by rewrite IH.
Qed.

(** X8: lower-casing is stable.  A header line of ASCII bytes that is
    already in the lower case [parse] gives it is stored as the line it
    came from: parsing the lower-cased name and value stores the same
    entry. *)
Theorem lower_casing_is_stable (r : Request) (name value : string) :
  wroteProtocol r = true -> wroteHeaders r = false ->
  isASCII name = true -> isASCII value = true ->
  Contains name ": " = false ->
  parse (headerLine (ToLower name, ToLower value)) r =
  parse (headerLine (name, value)) r.
Proof.
  intros Hproto Hhdrs Hname Hvalue Hsep.
  destruct (ToLower_ASCII _ Hname) as (Hn & _ & _ & Hnn).
  destruct (ToLower_ASCII _ Hvalue) as (_ & _ & _ & Hvv).
  assert (Hsep' : Contains (ToLower name) ": " = false).
  { unfold Contains in *. rewrite Hn, Index_lower by done. done. }
  rewrite (parse_headerLine _ _ r Hproto Hhdrs Hsep').
  rewrite (parse_headerLine _ _ r Hproto Hhdrs Hsep).
  by rewrite Hnn, Hvv.
Qed.

End ParseProperties.

(** * Further properties of [handleConnection_v5] *)

Section HandlerProperties.

Context `{UnicodeCase}.

(** The loop on the lines of a well-formed request. *)
Lemma readRequest_requestLines method path protocol hs :
  Contains method " " = false -> Contains path " " = false ->
  Contains protocol " " = false ->
  Forall (fun h => Contains h.1 ": " = false) hs ->
  readRequest (requestLines method path protocol hs) newRequest =
  (terminated (fold_left (fun r h => withHeader (ToLower h.1) (ToLower h.2) r) hs
                 (withStartLine method path protocol newRequest)), Break).
Proof.
  intros Hm Hp Hv Hhs. unfold requestLines. cbn [readRequest].
  rewrite (parse_start_ok _ newRequest method path protocol
             (startLine_nonempty _ _ _) eq_refl (Split_startLine _ _ _ Hm Hp Hv)).
  cbn [done withStartLine newRequest].
  by apply (readRequest_headers hs (withStartLine method path protocol newRequest)).
Qed.

(** X9: a well-formed request is always answered, with the 200 response
    when its method is [GET] and its path is [/], byte for byte, and with
    the 404 response otherwise; the protocol field and the headers play no
    part. *)
Theorem wellformed_request_is_routed
  (method path protocol : string) (hs : list (string * string)) :
  Contains method " " = false -> Contains path " " = false ->
  Contains protocol " " = false ->
  Forall (fun h => Contains h.1 ": " = false) hs ->
  handleConnection_v5 (requestLines method path protocol hs) =
  Some (if decide (method = "GET" /\ path = "/") then writeOK "Gopher!!"
        else writeNotFound).
Proof.
  intros Hm Hp Hv Hhs. unfold handleConnection_v5.
  rewrite (readRequest_requestLines _ _ _ _ Hm Hp Hv Hhs), respond_spec.
  destruct (store_fields hs (withStartLine method path protocol newRequest))
    as (HM & HP & _).
  cbn [Method Path terminated]. by rewrite HM, HP.
Qed.

Lemma readRequest_after_blank before after r :
  readRequest (before ++ "" :: after) r = readRequest (before ++ [""]) r /\
  (readRequest (before ++ [""]) r).2 <> EndOfInput.
Proof.
  revert r. induction before as [|line before IH]; intros r.
  - cbn [app readRequest]. by rewrite parse_blank.
  - cbn [app readRequest]. destruct (parse line r) as [r' [err|]]; [done|].
    destruct (done r'); [done|]. apply IH.
Qed.

(** X10: nothing after the blank line is looked at.  The answer to lines
    with a blank line among them is the answer to the lines up to the first
    such blank line, and the read loop then never runs to the end of the
    input. *)
Theorem lines_after_blank_line_are_ignored (before after : list string) :
  handleConnection_v5 (before ++ "" :: after) = handleConnection_v5 (before ++ [""]) /\
  (readRequest (before ++ "" :: after) newRequest).2 <> EndOfInput.
Proof.
  destruct (readRequest_after_blank before after newRequest) as [Heq Hexit].
  unfold handleConnection_v5. by rewrite Heq.
Qed.

(** X11: a connection that sends nothing, or whose first line is blank, is
    answered with the 404 response, whatever follows. *)
Theorem empty_request_is_answered_404 (lines : list string) :
  handleConnection_v5 [] = Some writeNotFound /\
  handleConnection_v5 ("" :: lines) = Some writeNotFound.
Proof. done. Qed.

Lemma readRequest_after_protocol lines r :
  wroteProtocol r = true ->
  Method (readRequest lines r).1 = Method r /\ Path (readRequest lines r).1 = Path r.
Proof.
  revert r. induction lines as [|line lines IH]; intros r Hproto; [done|].
  cbn [readRequest].
  destruct (parse_after_protocol r line Hproto) as (Hm & Hp & _ & Hproto').
  destruct (parse line r) as [r' [err|]]; simpl in *; [done|].
  destruct (done r'); simpl; [done|].
  destruct (IH r' Hproto') as [Hm' Hp']. by rewrite Hm', Hp'.
Qed.

(** X17: the 200 response is only ever written for [GET /].  Whatever the
    lines of the connection, when the handler writes the 200 response the
    first line is [GET], a space, [/], a space and a protocol field without
    space. *)
Theorem ok_response_only_for_get_root (lines : list string) :
  handleConnection_v5 lines = Some (writeOK "Gopher!!") ->
  exists protocol rest,
    lines = startLine "GET" "/" protocol :: rest /\ Contains protocol " " = false.
Proof.
  unfold handleConnection_v5. destruct lines as [|line rest]; [done|].
  destruct (decide (line = "")) as [->|Hline]; [done|].
  cbn [readRequest]. intros Hok.
  destruct (decide (length (Split line " ") = 3)) as [H3|H3].
  - destruct (Split line " ") as [|m [|p [|v [|? ?]]]] eqn:Hsplit; try done.
    rewrite (parse_start_ok _ newRequest _ _ _ Hline eq_refl Hsplit) in Hok.
    cbn [done withStartLine newRequest] in Hok.
    destruct (readRequest_after_protocol rest (withStartLine m p v newRequest) eq_refl)
      as [Hm Hp].
    destruct (readRequest rest (withStartLine m p v newRequest)) as [r exit].
    simpl in Hm, Hp.
    assert (Hresp : respond r = writeOK "Gopher!!") by (by destruct exit; simplify_eq).
    rewrite respond_spec in Hresp. case_decide as Hget; [|by vm_compute in Hresp].
    destruct Hget as [HM HP]. rewrite Hm in HM. rewrite Hp in HP. subst m p.
    destruct (Split_three _ _ _ _ Hsplit) as (-> & _ & _ & Hv).
    exists v, rest. by rewrite HM, HP.
  - by rewrite (parse_start_error _ newRequest Hline eq_refl H3) in Hok.
Qed.

(** *** From the bytes of the connection *)

Lemma IndexByte_app a b c :
  IndexByte a c = None ->
  IndexByte (a +:+ b) c = option_map (fun i => String.length a + i) (IndexByte b c).
Proof.
  induction a as [|x a IH]; simpl; [by destruct (IndexByte b c)|].
  destruct (Ascii.eqb x c); [done|].
  destruct (IndexByte a c); simpl; [done|]. intros _. rewrite IH by done.
  by destruct (IndexByte b c).
Qed.

Lemma IndexByte_app_None a b c :
  IndexByte a c = None -> IndexByte b c = None -> IndexByte (a +:+ b) c = None.
Proof. intros Ha Hb. by rewrite IndexByte_app, Hb. Qed.

Lemma lastByte_snoc a c : lastByte (a +:+ String c "") = Some c.
Proof.
  induction a as [|x a IH]; [done|].
  simpl. rewrite IH. by destruct a.
Qed.

Lemma dropCR_snoc a : dropCR (a +:+ String CR "") = a.
Proof.
  unfold dropCR. rewrite lastByte_snoc, Ascii.eqb_refl, append_length.
  simpl. replace (String.length a + 1 - 1) with (String.length a) by lia.
  apply sliceTo_app.
Qed.

(** A line without line feed, ended by CRLF, is the next line scanned. *)
Lemma Scan_wire line rest :
  IndexByte line LF = None -> Scan (line +:+ CRLF +:+ rest) = Some (line, rest).
Proof.
  intros Hline. unfold Scan, ScanLines.
  replace (String.length (line +:+ CRLF +:+ rest) =? 0) with false
    by (rewrite append_length; simpl; symmetry; apply Nat.eqb_neq; lia).
  rewrite (IndexByte_app _ _ _ Hline). cbn [andb].
  change (IndexByte (CRLF +:+ rest) LF) with (Some 1). cbn [option_map].
  change (line +:+ CRLF +:+ rest)
    with (line +:+ String CR "" +:+ String LF rest) at 1.
  rewrite <- append_assoc.
  replace (String.length line + 1) with (String.length (line +:+ String CR ""))
    by (rewrite append_length; done).
  rewrite sliceTo_app, dropCR_snoc.
  change (line +:+ CRLF +:+ rest)
    with (line +:+ String CR "" +:+ String LF "" +:+ rest).
  rewrite <- (append_assoc line), <- (append_assoc (line +:+ String CR "")).
  replace (String.length (line +:+ String CR "") + 1)
    with (String.length ((line +:+ String CR "") +:+ String LF ""))
    by (rewrite (append_length (_ +:+ _)); done).
  by rewrite sliceFrom_app.
Qed.

Lemma wire_cons line lines body :
  wire (line :: lines) +:+ body = line +:+ CRLF +:+ (wire lines +:+ body).
Proof. cbn [wire fold_right]. by rewrite !append_assoc. Qed.

(** One round of the loop over the bytes. *)
Lemma readStream_wire fuel line lines body req :
  IndexByte line LF = None ->
  readStream (S fuel) (wire (line :: lines) +:+ body) req =
  match parse line req with
  | (req', Some err) => (req', ParseError err, wire lines +:+ body)
  | (req', None) =>
      if done req' then (req', Break, wire lines +:+ body)
      else readStream fuel (wire lines +:+ body) req'
  end.
Proof.
  intros Hline. cbn [readStream]. by rewrite wire_cons, (Scan_wire _ _ Hline).
Qed.

(** With its limit the scanner yields nothing that it does not yield
    without. *)
Lemma ScanBounded_Scan data token :
  ScanBounded data = Some token -> Scan data = Some token.
Proof.
  unfold ScanBounded. destruct (IndexByte data LF) as [i|].
  - by destruct (belowLimit i).
  - by destruct (belowLimit (String.length data)).
Qed.

Lemma IndexByte_lt data c i : IndexByte data c = Some i -> i < String.length data.
Proof.
  revert i. induction data as [|b data IH]; intros i; simpl; [done|].
  destruct (Ascii.eqb b c); [intros [= <-]; lia|].
  destruct (IndexByte data c) as [j|]; simpl; [|done].
  intros [= <-]. specialize (IH j eq_refl). lia.
Qed.

(** On data shorter than the buffer the limit makes no difference. *)
Lemma ScanBounded_short data :
  (Z.of_nat (String.length data) < maxScanTokenSize)%Z -> ScanBounded data = Scan data.
Proof.
  intros Hlen. unfold ScanBounded.
  destruct (IndexByte data LF) as [i|] eqn:Hi.
  - apply IndexByte_lt in Hi.
    replace (belowLimit i) with true; [done|].
    symmetry. apply Z.ltb_lt. lia.
  - replace (belowLimit (String.length data)) with true; [done|].
    symmetry. by apply Z.ltb_lt.
Qed.

(** A line without line feed that fits the buffer with its CRLF is the
    next line scanned. *)
Lemma ScanBounded_wire line rest :
  IndexByte line LF = None -> (Z.of_nat (String.length line) + 2 <= maxScanTokenSize)%Z ->
  ScanBounded (line +:+ CRLF +:+ rest) = Some (line, rest).
Proof.
  intros Hline Hfit. unfold ScanBounded.
  rewrite (IndexByte_app _ _ _ Hline).
  change (IndexByte (CRLF +:+ rest) LF) with (Some 1). cbn [option_map].
  replace (belowLimit (String.length line + 1)) with true
    by (symmetry; apply Z.ltb_lt; lia).
  by apply Scan_wire.
Qed.

Lemma readStreamBounded_wire fuel line lines body req :
  IndexByte line LF = None -> (Z.of_nat (String.length line) + 2 <= maxScanTokenSize)%Z ->
  readStreamBounded (S fuel) (wire (line :: lines) +:+ body) req =
  match parse line req with
  | (req', Some err) => (req', ParseError err, wire lines +:+ body)
  | (req', None) =>
      if done req' then (req', Break, wire lines +:+ body)
      else readStreamBounded fuel (wire lines +:+ body) req'
  end.
Proof.
  intros Hline Hfit. cbn [readStreamBounded].
  by rewrite wire_cons, (ScanBounded_wire _ _ Hline Hfit).
Qed.

Lemma readStreamBounded_headers hs r body fuel :
  wroteProtocol r = true -> wroteHeaders r = false -> done r = false ->
  Forall (fun h => Contains h.1 ": " = false) hs ->
  Forall (fun line => IndexByte line LF = None /\
                      (Z.of_nat (String.length line) + 2 <= maxScanTokenSize)%Z)
    (map headerLine hs) ->
  length hs < fuel ->
  readStreamBounded fuel (wire (map headerLine hs ++ [""]) +:+ body) r =
  (terminated (fold_left (fun r h => withHeader (ToLower h.1) (ToLower h.2) r) hs r),
   Break, body).
Proof.
  revert r fuel.
  induction hs as [|[name value] hs IH]; intros r fuel Hproto Hhdrs Hdone Hhs Hfit Hfuel.
  - destruct fuel as [|fuel]; [simpl in Hfuel; lia|].
    cbn [map app]. rewrite readStreamBounded_wire; [|done|by vm_compute].
    by rewrite parse_blank.
  - destruct fuel as [|fuel]; [simpl in Hfuel; lia|].
    inversion Hhs as [|? ? Hname Hrest]; subst. simpl in Hname.
    cbn [map] in Hfit. inversion Hfit as [|? ? [Hline Hlen] Hlines]; subst.
    cbn [map app]. rewrite readStreamBounded_wire by done.
    rewrite (parse_headerLine name value r Hproto Hhdrs Hname).
    cbn [done withHeader]. rewrite Hdone.
    rewrite (IH (withHeader (ToLower name) (ToLower value) r)); try done.
    simpl in Hfuel. lia.
Qed.

Lemma wire_length lines : 2 * length lines <= String.length (wire lines).
Proof.
  induction lines as [|line lines IH]; simpl; [lia|].
  rewrite !append_length. simpl. lia.
Qed.

(** X12: from the bytes of the connection.  When the lines of a
    well-formed request have no line feed in them, fit the buffer of the
    scanner with their CRLF (at most 65534 bytes each) and are sent each
    ended by CRLF, followed by any bytes, the handler's loop over the
    scanner yields what the loop over those lines yields, stops at the
    blank line, and leaves exactly the bytes after the blank line unread. *)
Theorem request_bytes_are_read_back
  (method path protocol : string) (hs : list (string * string)) (body : string) :
  Contains method " " = false -> Contains path " " = false ->
  Contains protocol " " = false ->
  Forall (fun h => Contains h.1 ": " = false) hs ->
  Forall (fun line => IndexByte line LF = None /\
                      (Z.of_nat (String.length line) + 2 <= maxScanTokenSize)%Z)
    (requestLines method path protocol hs) ->
  let data := wire (requestLines method path protocol hs) +:+ body in
  readStreamBounded (String.length data) data newRequest =
  (readRequest (requestLines method path protocol hs) newRequest, body) /\
  (readRequest (requestLines method path protocol hs) newRequest).2 = Break.
Proof.
  intros Hm Hp Hv Hhs Hfit data.
  rewrite (readRequest_requestLines _ _ _ _ Hm Hp Hv Hhs). split; [|done].
  assert (Hfuel : length hs + 2 <= String.length data).
  { assert (Hn : length (requestLines method path protocol hs) = length hs + 2).
    { unfold requestLines. cbn [length]. rewrite length_app, length_map. simpl. lia. }
    pose proof (wire_length (requestLines method path protocol hs)) as Hw.
    rewrite Hn in Hw. unfold data. rewrite append_length. lia. }
  destruct (String.length data) as [|fuel]; [lia|].
  unfold data, requestLines in *.
  inversion Hfit as [|? ? [Hstart Hlen] Hlines]; subst.
  rewrite readStreamBounded_wire by done.
  rewrite (parse_start_ok _ newRequest method path protocol
             (startLine_nonempty _ _ _) eq_refl (Split_startLine _ _ _ Hm Hp Hv)).
  cbn [done withStartLine newRequest].
  apply (readStreamBounded_headers hs (withStartLine method path protocol newRequest));
    try done.
  - apply Forall_app in Hlines as [Hlines _]. done.
  - lia.
Qed.

Lemma digits_string_of_uint d : allDigits (NilEmpty.string_of_uint d) = true.
Proof. induction d; simpl; done. Qed.

Lemma Itoa_allDigits n : allDigits (Strconv.Itoa n) = true.
Proof.
  unfold Strconv.Itoa, NilZero.string_of_uint.
  destruct (Nat.to_uint n) eqn:Hd; try done; rewrite <- Hd; apply digits_string_of_uint.
Qed.

Lemma digit_byte c :
  isDigitByte c = true ->
  isASCIIByte c = true /\ isUpperByte c = false /\ Ascii.eqb c LF = false.
Proof.
  unfold isDigitByte, isASCIIByte, isUpperByte.
  intros [Hlo%Nat.leb_le Hhi%Nat.leb_le]%andb_true_iff.
  split; [apply Nat.ltb_lt; lia|]. split.
  - apply andb_false_iff. left. apply Nat.leb_gt. lia.
  - destruct (Ascii.eqb_spec c LF) as [->|]; [|done].
    unfold LF in Hlo. rewrite nat_ascii_embedding in Hlo; lia.
Qed.

Lemma allDigits_plain s :
  allDigits s = true ->
  isASCII s = true /\ hasUpper s = false /\ IndexByte s LF = None.
Proof.
  induction s as [|c s IH]; simpl; [done|].
  intros [Hc Hs]%andb_true_iff.
  destruct (digit_byte c Hc) as (Ha & Hu & Hlf), (IH Hs) as (Ha' & Hu' & Hlf').
  by rewrite Ha, Ha', Hu, Hu', Hlf, Hlf'.
Qed.

(** X13: the 200 response for any body, read back with the handler's own
    loop.  Its status line is taken for a start line, the one header gives
    the entry [content-length] with the decimal length of the body, the
    loop stops at the blank line, and the bytes left unread are the body. *)
Theorem ok_response_is_read_back (dataToWrite : string) :
  readStream (String.length (writeOK dataToWrite)) (writeOK dataToWrite) newRequest =
  ({| Protocol := "OK"; Method := "HTTP/1.1"; Path := "200";
      Headers := {["content-length" := Strconv.Itoa (String.length dataToWrite)]};
      wroteProtocol := true; wroteHeaders := true; Body := ""; done := true |},
   Break, dataToWrite).
Proof.
  destruct (allDigits_plain _ (Itoa_allDigits (String.length dataToWrite)))
    as (Hascii & Hupper & Hlf).
  assert (Hwire : writeOK dataToWrite =
    wire ["HTTP/1.1 200 OK";
          headerLine ("Content-Length", Strconv.Itoa (String.length dataToWrite)); ""]
    +:+ dataToWrite).
  { unfold writeOK, WriteString, Write, wire, headerLine. cbn [fold_right fst snd].
    by rewrite !append_assoc. }
  rewrite Hwire.
  assert (Hfuel : 3 <= String.length
    (wire ["HTTP/1.1 200 OK";
           headerLine ("Content-Length", Strconv.Itoa (String.length dataToWrite)); ""]
     +:+ dataToWrite)).
  { rewrite append_length. pose proof (wire_length
      ["HTTP/1.1 200 OK";
       headerLine ("Content-Length", Strconv.Itoa (String.length dataToWrite)); ""]) as Hw.
    simpl length in Hw. lia. }
  match goal with |- readStream ?n _ _ = _ => destruct n as [|[|[|fuel]]] end; try lia.
  rewrite readStream_wire by done.
  change (parse "HTTP/1.1 200 OK" newRequest)
    with (withStartLine "HTTP/1.1" "200" "OK" newRequest, @None error).
  cbn [done withStartLine newRequest].
  rewrite readStream_wire
    by (unfold headerLine; cbn [fst snd]; by apply (IndexByte_app_None "Content-Length: ")).
  rewrite (parse_headerLine "Content-Length" _
             (withStartLine "HTTP/1.1" "200" "OK" newRequest) eq_refl eq_refl eq_refl).
  cbn [done withHeader withStartLine newRequest].
  rewrite readStream_wire by done. rewrite parse_blank.
  cbn [done terminated]. unfold terminated, withHeader, withStartLine, newRequest.
  cbn [Protocol Method Path Headers wroteProtocol Body].
  destruct (ToLower_ASCII _ Hascii) as (-> & _).
  by rewrite (lowerASCII_fixed _ Hupper).
Qed.

End HandlerProperties.

(** * The chunked read loop *)

Section ChunkProperties.


Lemma sliceTo_zeros k n : k <= n -> sliceTo k (zeros n) = zeros k.
Proof.
  revert n. induction k as [|k IH]; intros [|n] Hk; simpl; try done; try lia.
  rewrite IH; [done|lia].
Qed.

Lemma sliceTo_app_ge n a b :
  String.length a <= n -> sliceTo n (a +:+ b) = a +:+ sliceTo (n - String.length a) b.
Proof.
  revert n. induction a as [|c a IH]; intros n Hn; simpl in *.
  - by rewrite Nat.sub_0_r.
  - destruct n as [|n]; [lia|]. simpl. rewrite IH; [done|lia].
Qed.


(** A slice read short holds the bytes read and then zero bytes; a slice
    read full holds the bytes read. *)
Lemma dataSlice_short rd :
  String.length (delivered rd) <= chunkSize ->
  dataSlice rd = delivered rd +:+ zeros (chunkSize - String.length (delivered rd)).
Proof.
  intros Hlen. unfold dataSlice. rewrite sliceTo_app_ge by done.
  by rewrite sliceTo_zeros by lia.
Qed.



Lemma readChunks_full full reads completeData :
  Forall (fun rd => readErr rd <> Some ErrOther /\
                    String.length (delivered rd) = chunkSize) full ->
  readChunks (full ++ reads) completeData =
  readChunks reads (completeData +:+ allDelivered full).
Proof.
  intros Hfull. revert completeData.
  induction Hfull as [|rd full [Herr Hlen] _ IH]; intros completeData.
  - simpl. by rewrite append_nil_r.
  - cbn [app readChunks allDelivered fold_right]. unfold readRound, bytesRead.
    rewrite Hlen, Nat.min_id, Nat.ltb_irrefl.
    rewrite (dataSlice_short rd) by lia.
    rewrite Hlen, Nat.sub_diag. simpl zeros. rewrite append_nil_r.
    destruct (readErr rd) as [[|]|]; try done; by rewrite IH, append_assoc.
Qed.

(** X15: the loop ends at the first short read and pads.  After reads that
    fill the slice, a read of fewer than 64 bytes ends the loop: the data
    is the bytes of those reads followed by zero bytes up to the next
    multiple of 64, and the later reads are never made. *)
Theorem short_read_ends_the_loop (full : list readResult) (rd : readResult)
  (later : list readResult) :
  Forall (fun rd => readErr rd <> Some ErrOther /\
                    String.length (delivered rd) = chunkSize) full ->
  readErr rd <> Some ErrOther -> String.length (delivered rd) < chunkSize ->
  handleConnection_v2 (full ++ rd :: later) =
  Some (allDelivered full +:+ delivered rd +:+
        zeros (chunkSize - String.length (delivered rd))).
Proof.
  intros Hfull Herr Hshort. unfold handleConnection_v2.
  rewrite (readChunks_full _ _ _ Hfull). cbn [readChunks]. unfold readRound, bytesRead.
  rewrite Nat.min_l by lia.
  replace (String.length (delivered rd) <? chunkSize) with true
    by (symmetry; by apply Nat.ltb_lt).
  rewrite (dataSlice_short rd) by lia.
  destruct (readErr rd) as [[|]|]; done.
Qed.

Lemma readChunks_is_Some reads completeData :
  Forall (fun rd => readErr rd <> Some ErrOther) reads ->
  is_Some (readChunks reads completeData).
Proof.
  intros Hreads. revert completeData.
  induction Hreads as [|rd reads Herr _ IH]; intros completeData; [done|].
  cbn [readChunks]. unfold readRound.
  destruct (readErr rd) as [[|]|]; try done.
  all: destruct (bytesRead rd <? chunkSize); [done|apply IH].
Qed.

(** X16: the answers of [handleConnection_v3] and [handleConnection_v4] do
    not depend on the request.  When no read fails with an error other
    than [io.EOF], the one writes the eight bytes [Gopher!!] and the other
    the 200 response, whatever was read; when the first read fails with
    another error nothing is written. *)
Theorem fixed_answer_whatever_is_read (reads : list readResult) :
  Forall (fun rd => readErr rd <> Some ErrOther) reads ->
  handleConnection_v3 reads = Some "Gopher!!" /\
  handleConnection_v4_conn reads = Some handleConnection_v4 /\
  (forall bytes,
     handleConnection_v3 (mkRead bytes (Some ErrOther) :: reads) = None /\
     handleConnection_v4_conn (mkRead bytes (Some ErrOther) :: reads) = None).
Proof.
  intros Hreads. unfold handleConnection_v3, handleConnection_v4_conn.
  destruct (readChunks_is_Some reads "" Hreads) as [data ->]. done.
Qed.

End ChunkProperties.

(** * The claims on concrete requests *)

(** A case mapping to evaluate the definitions with, on inputs whose bytes
    are all below 128, where [strings.ToLower] never consults it. *)
#[local] Instance asciiOnly : UnicodeCase := fun s => s.

(** The request of the specification's end-to-end scenario, from its
    bytes. *)
Example request_bytes_example :
  readStream 40
    ("GET / HTTP/1.1" +:+ CRLF +:+ "Host: localhost:8080" +:+ CRLF +:+ CRLF) newRequest =
  ({| Protocol := "HTTP/1.1"; Method := "GET"; Path := "/";
      Headers := {["host" := "localhost:8080"]};
      wroteProtocol := true; wroteHeaders := true; Body := ""; done := true |},
   Break, "").
Proof. by vm_compute. Qed.

(** C1 at the lines [GET / HTTP/1.1], [Host: localhost:8080] and the blank
    line. *)
Lemma wellformed_request_example :
  exists r,
    readRequest ["GET / HTTP/1.1"; "Host: localhost:8080"; ""] newRequest = (r, Break) /\
    Method r = "GET" /\ Path r = "/" /\ Protocol r = "HTTP/1.1" /\ done r = true /\
    Headers r = {["host" := "localhost:8080"]}.
Proof.
  destruct (wellformed_request_parsed "GET" "/" "HTTP/1.1" [("Host", "localhost:8080")]
              eq_refl eq_refl eq_refl ltac:(by repeat constructor))
    as (r & Hr & Hm & Hp & Hv & Hd & Hh & _).
  exists r. repeat split; done.
Defined.

(** C1 as stated fails when a header name is repeated: of [A: 1] and
    [A: 2] only the second has its entry. *)
Lemma repeated_header_loses_first_value :
  let lines := requestLines "GET" "/" "HTTP/1.1" [("A", "1"); ("A", "2")] in
  let r := (readRequest lines newRequest).1 in
  lines = ["GET / HTTP/1.1"; "A: 1"; "A: 2"; ""] /\
  done r = true /\ Headers r !! "a" = Some "2" /\ Headers r !! "a" <> Some "1".
Proof. by vm_compute. Qed.

(** C2 as stated fails: a zero-length first line is accepted, and ends the
    request. *)
Lemma blank_first_line_is_accepted :
  wroteProtocol newRequest = false /\
  parse "" newRequest =
  ({| Protocol := ""; Method := ""; Path := ""; Headers := ∅;
      wroteProtocol := false; wroteHeaders := true; Body := ""; done := true |}, None).
Proof. by vm_compute. Qed.

(** C3 as stated fails: with [Content-Length: 8] among the headers the
    completed request has no body. *)
Lemma content_length_without_body :
  let r := (readRequest ["POST / HTTP/1.1"; "Content-Length: 8"; ""] newRequest).1 in
  done r = true /\ contentLength r = Some 8 /\ Body r = "" /\
  ~ bodyFollowsContentLength r.
Proof.
  split; [by vm_compute|]. split; [by vm_compute|]. split; [by vm_compute|].
  unfold bodyFollowsContentLength.
  replace (contentLength _) with (Some 8) by (by vm_compute).
  by intros [Hbody _].
Qed.

(** C4 as stated fails: a start line and a header with no blank line after
    them are answered with the 200 response. *)
Lemma headers_without_blank_line_answered :
  ("" ∉ ["GET / HTTP/1.1"; "Host: localhost:8080"]) /\
  (readRequest ["GET / HTTP/1.1"; "Host: localhost:8080"] newRequest).2 = EndOfInput /\
  handleConnection_v5 ["GET / HTTP/1.1"; "Host: localhost:8080"] =
  Some ("HTTP/1.1 200 OK" +:+ CRLF +:+ "Content-Length: 8" +:+ CRLF +:+ CRLF +:+ "Gopher!!").
Proof.
  split; [|by vm_compute].
  intros Hin. repeat (apply elem_of_cons in Hin as [Hin|Hin]; [discriminate|]).
  by apply elem_of_nil in Hin.
Qed.

(** C4 at the same lines. *)
Lemma missing_blank_line_example :
  (exists r err,
     readRequest ["GET / HTTP/1.1"; "Host: localhost:8080"] newRequest = (r, ParseError err) /\
     handleConnection_v5 ["GET / HTTP/1.1"; "Host: localhost:8080"] = None) \/
  (let r := parseAll ["GET / HTTP/1.1"; "Host: localhost:8080"] newRequest in
   readRequest ["GET / HTTP/1.1"; "Host: localhost:8080"] newRequest = (r, EndOfInput) /\
   done r = false /\
   handleConnection_v5 ["GET / HTTP/1.1"; "Host: localhost:8080"] = Some (respond r) /\
   respond r = if decide (Method r = "GET" /\ Path r = "/") then writeOK "Gopher!!"
               else writeNotFound).
Proof.
  apply (missing_blank_line_is_answered ["GET / HTTP/1.1"; "Host: localhost:8080"]).
  intros Hin. repeat (apply elem_of_cons in Hin as [Hin|Hin]; [discriminate|]).
  by apply elem_of_nil in Hin.
Defined.

(** C6 at a request of three lines. *)
Lemma parse_invariants_example :
  let lines := ["GET / HTTP/1.1"; "Host: localhost:8080"; ""] in
  wroteHeaders (parseAll lines newRequest) = true /\
  headersTerminations lines newRequest = 1.
Proof.
  destruct (parse_invariants ["GET / HTTP/1.1"; "Host: localhost:8080"; ""])
    as (Hdone & _ & _ & Hcount & _).
  split; [by apply Hdone|apply Hcount].
Defined.

(** C7 at a start line of two fields and at one of four. *)
Lemma malformed_start_line_example :
  parse "GET /" newRequest = (newRequest, Some errProtocolLine) /\
  parse "GET / HTTP/1.1 x" newRequest = (newRequest, Some errProtocolLine).
Proof.
  split.
  - apply (malformed_start_line_rejected newRequest "GET /"); [done|done|].
    vm_compute. lia.
  - apply (malformed_start_line_rejected newRequest "GET / HTTP/1.1 x"); [done|done|].
    vm_compute. lia.
Defined.

(** C8 after the start line: a line without colon-space, and a line with
    two of them. *)
Lemma header_line_example :
  let r := (parse "GET / HTTP/1.1" newRequest).1 in
  parse "Host localhost" r = (r, Some errInvalidHeader) /\
  parse "Host: Example.COM: 8080" r = (withHeader "host" "example.com: 8080" r, None).
Proof.
  split.
  - by apply (proj1 (header_line_parsed (parse "GET / HTTP/1.1" newRequest).1
                       eq_refl eq_refl) "Host localhost").
  - by apply (proj1 (proj2 (header_line_parsed (parse "GET / HTTP/1.1" newRequest).1
                              eq_refl eq_refl)) "Host" "Example.COM: 8080").
Defined.

(** C9 at [Content-Length: 1] followed by [Content-Length: 2]. *)
Lemma repeated_content_length_example :
  Headers (parseAll ["GET / HTTP/1.1"; "Content-Length: 1"; "Content-Length: 2"] newRequest)
  = {["content-length" := "2"]}.
Proof.
  by apply (proj1 (repeated_header_overwrites (parse "GET / HTTP/1.1" newRequest).1
                     "Content-Length" "1" "Content-Length" "2"
                     eq_refl eq_refl eq_refl eq_refl eq_refl)).
Defined.

(** C10 at a request completed by a start line and a blank line. *)
Lemma completed_request_example :
  let r := parseAll ["GET / HTTP/1.1"; ""] newRequest in
  parse "Host: localhost:8080" r = (r, None) /\ parse "" r = (r, None).
Proof.
  split.
  - by apply (proj2 completed_request_ignores_lines ["GET / HTTP/1.1"; ""]).
  - by apply (proj2 completed_request_ignores_lines ["GET / HTTP/1.1"; ""]).
Defined.

(** * The further properties on concrete inputs *)

(** X1 at a line of two spaces, accepted with three empty fields, and at a
    start line with a doubled space, rejected. *)
Lemma start_line_spaces_example :
  (parse "  " newRequest).2 = None /\
  (parse "GET  / HTTP/1.1" newRequest).2 <> None.
Proof.
  split.
  - by apply (proj2 (start_line_accepted_iff_two_spaces newRequest "  " ltac:(done) eq_refl)).
  - intros Hnone.
    by apply (proj1 (start_line_accepted_iff_two_spaces newRequest "GET  / HTTP/1.1"
                       ltac:(done) eq_refl)) in Hnone.
Defined.

(** X2 at the start line [GET / HTTP/1.1]. *)
Lemma accepted_start_line_example :
  let r' := withStartLine "GET" "/" "HTTP/1.1" newRequest in
  "GET / HTTP/1.1" = startLine (Method r') (Path r') (Protocol r') /\
  Contains (Method r') " " = false /\ Contains (Path r') " " = false /\
  Contains (Protocol r') " " = false /\
  r' = withStartLine (Method r') (Path r') (Protocol r') newRequest.
Proof.
  by apply (accepted_start_line_round_trip newRequest
              (withStartLine "GET" "/" "HTTP/1.1" newRequest) "GET / HTTP/1.1").
Defined.

(** X3 at a header line with two separators, after the start line. *)
Lemma header_line_accepted_example :
  let r := withStartLine "GET" "/" "HTTP/1.1" newRequest in
  ((parse "Via: a: b" r).2 = None <-> Contains "Via: a: b" ": " = true) /\
  (forall r', parse "Via: a: b" r = (r', None) ->
     exists name value,
       "Via: a: b" = name +:+ ": " +:+ value /\ Contains name ": " = false /\
       r' = withHeader (ToLower name) (ToLower value) r).
Proof.
  by apply (header_line_accepted_iff_separator
              (withStartLine "GET" "/" "HTTP/1.1" newRequest) "Via: a: b").
Defined.

(** X4 at a header line without separator, after the start line. *)
Lemma parse_error_example :
  let r := withStartLine "GET" "/" "HTTP/1.1" newRequest in
  r = r /\ "Host" <> "" /\
  (errInvalidHeader = errProtocolLine /\ wroteProtocol r = false \/
   errInvalidHeader = errInvalidHeader /\ wroteProtocol r = true /\
   wroteHeaders r = false).
Proof.
  by apply (parse_error_has_no_effect (withStartLine "GET" "/" "HTTP/1.1" newRequest)
              (withStartLine "GET" "/" "HTTP/1.1" newRequest) "Host" errInvalidHeader).
Defined.

(** X5 at a second start line sent after the first. *)
Lemma start_line_once_example :
  let r := withStartLine "GET" "/" "HTTP/1.1" newRequest in
  let r' := parseAll ["Host: a"; "POST /x HTTP/1.0"; ""; "PUT /y HTTP/1.1"] r in
  Method r' = "GET" /\ Path r' = "/" /\ Protocol r' = "HTTP/1.1" /\
  wroteProtocol r' = true /\
  (wroteHeaders r = true -> wroteHeaders r' = true) /\
  (done r = true -> done r' = true).
Proof.
  by apply (start_line_is_parsed_once
              ["Host: a"; "POST /x HTTP/1.0"; ""; "PUT /y HTTP/1.1"]
              (withStartLine "GET" "/" "HTTP/1.1" newRequest)).
Defined.

(** X7 at headers written in mixed case. *)
Lemma lower_case_entries_example :
  map_Forall (fun k v => hasUpper k = false /\ hasUpper v = false)
    (Headers (parseAll ["GET / HTTP/1.1"; "Host: LocalHost"; "ACCEPT: Text/HTML"]
                newRequest)).
Proof.
  apply (header_entries_are_lower_case
           ["GET / HTTP/1.1"; "Host: LocalHost"; "ACCEPT: Text/HTML"]).
  by repeat constructor.
Defined.

(** X8 at a header in mixed case. *)
Lemma lower_casing_stable_example :
  let r := withStartLine "GET" "/" "HTTP/1.1" newRequest in
  parse "host: localhost:8080" r = parse "Host: LocalHost:8080" r.
Proof.
  by apply (lower_casing_is_stable (withStartLine "GET" "/" "HTTP/1.1" newRequest)
              "Host" "LocalHost:8080").
Defined.

(** X9 at a [POST] request. *)
Lemma routed_request_example :
  handleConnection_v5 ["POST / HTTP/1.1"; "Host: localhost:8080"; ""] =
  Some writeNotFound.
Proof.
  apply (wellformed_request_is_routed "POST" "/" "HTTP/1.1" [("Host", "localhost:8080")]);
    by repeat constructor.
Defined.

(** X12 at a [POST] request followed by a body. *)
Lemma request_bytes_example_with_body :
  let lines := requestLines "POST" "/" "HTTP/1.1" [("Content-Length", "8")] in
  let data := wire lines +:+ "Gopher!!" in
  readStreamBounded (String.length data) data newRequest =
  (readRequest lines newRequest, "Gopher!!") /\
  (readRequest lines newRequest).2 = Break.
Proof.
  apply (request_bytes_are_read_back "POST" "/" "HTTP/1.1" [("Content-Length", "8")]
           "Gopher!!"); [done|done|done|by repeat constructor|].
  repeat (constructor; [split; [reflexivity|by vm_compute]|]).
  constructor.
Defined.


(** X15 at a read of five bytes with another read waiting. *)
Lemma short_read_example :
  handleConnection_v2 [mkRead "hello" None; mkRead "world" None] =
  Some ("hello" +:+ zeros 59).
Proof.
  apply (short_read_ends_the_loop [] (mkRead "hello" None) [mkRead "world" None]).
  - constructor.
  - done.
  - unfold chunkSize. simpl. lia.
Defined.

(** X16 at one read of three bytes. *)
Lemma fixed_answer_example :
  handleConnection_v3 [mkRead "abc" None] = Some "Gopher!!" /\
  handleConnection_v4_conn [mkRead "abc" None] = Some handleConnection_v4 /\
  (forall bytes,
     handleConnection_v3 (mkRead bytes (Some ErrOther) :: [mkRead "abc" None]) = None /\
     handleConnection_v4_conn (mkRead bytes (Some ErrOther) :: [mkRead "abc" None]) = None).
Proof.
  apply (fixed_answer_whatever_is_read [mkRead "abc" None]).
  by repeat constructor.
Defined.

(** X17 at a start line with no line after it. *)
Lemma ok_response_example :
  exists protocol rest,
    ["GET / HTTP/1.1"] = startLine "GET" "/" protocol :: rest /\
    Contains protocol " " = false.
Proof. by apply (ok_response_only_for_get_root ["GET / HTTP/1.1"]). Defined.
